(** * scripts/generate_ai_videos.py: a shallow embedding and its properties

    The script loads a catalog of planets, samples a text-to-image
    pipeline a number of times per planet, saves the frames below
    [.cache_video_frames/<safe_name>/] and asks [ffmpeg] to assemble them
    into [<outdir>/<safe_name>.mp4].

    Layout of this file:
    - Python strings, integer formatting and the name sanitisation;
    - pathlib paths and the part of the file system the script touches;
    - the outside world (environment, model, encoder) as oracles, and a
      state-and-exception monad with an event trace;
    - the script's functions, under their own names;
    - what the statements need to read traces, numbers and trees, and the
      concrete settings of the examples;
    - the properties.

    What is modelled and what is not:
    - strings are sequences of code points; the Unicode tables behind
      [isalnum] and [isspace] are written out for ASCII and left open above;
    - paths are POSIX paths and the file system is a finite map from paths to
      files and directories; an operation raises exactly when the shape of
      the tree makes it raise (no permissions, no full disks, no links);
    - the model, the catalog file and the subprocesses are oracles; the
      pipeline and the subprocesses may answer differently each time, as
      their answer may depend on the trace so far; what [ffmpeg] writes is
      outside the modelled tree;
    - the progress bar of [tqdm] and the text of the printed lines are left
      out: a print is recorded by what it reports. *)

From Stdlib Require Import ZArith NArith List Ascii String Lia Bool.
From Stdlib Require Import DecimalString DecimalPos DecimalN DecimalFacts.
From stdpp Require Import base option numbers list countable gmap fin_maps.

Import ListNotations.
Local Open Scope Z_scope.

(** ** Python strings *)

(** A Python [str] is a sequence of Unicode code points. *)
Definition char : Type := N.
Definition str : Type := list char.

(** String literals of the script, all of them ASCII. *)
Definition lit (s : string) : str :=
  List.map N_of_ascii (list_ascii_of_string s).

(** [str.isalnum] and [str.isspace] consult the Unicode character database.
    The ASCII rows are written out; the rows of the code points from 128 on
    are an interface the interpreter provides. *)
Class UnicodeData : Type := {
  uni_isalnum : char -> bool;
  uni_isspace : char -> bool
}.

Definition in_range (lo hi c : N) : bool := ((lo <=? c) && (c <=? hi))%N.

Definition ascii_isalnum (c : char) : bool :=
  in_range 48 57 c || in_range 65 90 c || in_range 97 122 c.

(** TAB, LF, VT, FF, CR, the four information separators, and the space. *)
Definition ascii_isspace (c : char) : bool :=
  in_range 9 13 c || in_range 28 32 c.

Section Strings.
Context `{UnicodeData}.

Definition isalnum (c : char) : bool :=
  if (c <? 128)%N then ascii_isalnum c else uni_isalnum c.

Definition isspace (c : char) : bool :=
  if (c <? 128)%N then ascii_isspace c else uni_isspace c.

Fixpoint lstrip (s : str) : str :=
  match s with
  | c :: s' => if isspace c then lstrip s' else s
  | [] => []
  end.

Definition rstrip (s : str) : str := rev (lstrip (rev s)).

(** [s.strip()] *)
Definition strip (s : str) : str := rstrip (lstrip s).

(** Whether a string is empty or starts with something else than a blank. *)
Definition clean_start (s : str) : bool :=
  match s with
  | [] => true
  | c :: _ => negb (isspace c)
  end.

(** [s.replace(old, new)] for one-character [old] and [new]. *)
Definition replace (old new : char) (s : str) : str :=
  List.map (fun c => if (c =? old)%N then new else c) s.

Definition SPACE : char := 32%N.
Definition HYPHEN : char := 45%N.
Definition UNDERSCORE : char := 95%N.

(** [c.isalnum() or c in (' ', '-', '_')] *)
Definition kept (c : char) : bool :=
  isalnum c || (c =? SPACE)%N || (c =? HYPHEN)%N || (c =? UNDERSCORE)%N.

(** Line 112:
    [''.join(c for c in name if ...).strip().replace(' ', '_')] *)
Definition safe_name (name : str) : str :=
  replace SPACE UNDERSCORE (strip (List.filter kept name)).

End Strings.

(** ** Integers as text *)

(** The decimal digits of a natural number: [str(n)] for [n >= 0]. *)
Definition digits (n : N) : str := lit (NilZero.string_of_uint (N.to_uint n)).

(** [str(z)] *)
Definition str_of_int (z : Z) : str :=
  if z <? 0 then lit "-" ++ digits (Z.abs_N z) else digits (Z.abs_N z).

(** [f"{z:0{w}d}"]: sign first, then zeros up to the minimal width [w]. *)
Definition format_0d (w : nat) (z : Z) : str :=
  let sign := if z <? 0 then lit "-" else [] in
  let d := digits (Z.abs_N z) in
  sign ++ repeat 48%N (w - length sign - length d)%nat ++ d.

(** Comparison of strings, code point by code point ([<] on [str]). *)
Fixpoint str_ltb (a b : str) : bool :=
  match a, b with
  | [], [] => false
  | [], _ :: _ => true
  | _ :: _, [] => false
  | x :: a', y :: b' =>
      if (x <? y)%N then true else if (x =? y)%N then str_ltb a' b' else false
  end.

(** ** pathlib paths *)

(** A pure POSIX path: whether it starts at the root, and its components. *)
Record Path : Type := mkPath { anchored : bool; parts : list str }.

Definition SLASH : char := 47%N.

(** [s.split(sep)] for a one-character separator. *)
Fixpoint split_on (sep : char) (s : str) : list str :=
  match s with
  | [] => [[]]
  | c :: s' =>
      match split_on sep s' with
      | w :: ws => if (c =? sep)%N then [] :: w :: ws else (c :: w) :: ws
      | [] => [[c]]
      end
  end.

Definition str_eqb (a b : str) : bool := bool_decide (a = b).

(** [Path(s)]: empty components and [.] components are dropped, [..] is
    kept. (pathlib keeps a leading double slash apart from a single one;
    here both read as the root.) *)
Definition Path_of (s : str) : Path :=
  {| anchored := match s with c :: _ => (c =? SLASH)%N | [] => false end;
     parts := List.filter (fun w => negb (str_eqb w [] || str_eqb w (lit ".")))
                          (split_on SLASH s) |}.

(** [p / s]: an anchored right operand replaces the left one. *)
Definition joinpath (p : Path) (s : str) : Path :=
  let q := Path_of s in
  if anchored q then q
  else {| anchored := anchored p; parts := parts p ++ parts q |}.

Fixpoint join_with (sep : str) (ws : list str) : str :=
  match ws with
  | [] => []
  | [w] => w
  | w :: ws' => w ++ sep ++ join_with sep ws'
  end.

(** [str(p)] *)
Definition path_str (p : Path) : str :=
  match anchored p, parts p with
  | false, [] => lit "."
  | false, ws => join_with (lit "/") ws
  | true, ws => lit "/" ++ join_with (lit "/") ws
  end.

(** [p.name] *)
Definition path_name (p : Path) : str := List.last (parts p) [].

(** [p.parent], for a path that has a last component. *)
Definition parent (p : Path) : option Path :=
  match parts p with
  | [] => None
  | _ :: _ => Some {| anchored := anchored p; parts := removelast (parts p) |}
  end.

#[global] Instance Path_eq_dec : EqDecision Path.
Proof. solve_decision. Defined.

#[global] Instance Path_countable : Countable Path.
Proof.
  apply (inj_countable' (fun p => (anchored p, parts p))
                        (fun q => {| anchored := q.1; parts := q.2 |})).
  intros []; reflexivity.
Defined.

(** ** The file system below the working directory *)

(** Pixel data of one generated picture, by an encoding the script never
    looks into. *)
Definition image : Type := N.

Inductive node : Type :=
| File (data : image)
| Dir.

(** The tree is a finite map from paths to nodes. The path without
    components (the current directory, or the root) is always a directory. *)
Abbreviation Disk := (gmap Path node).

Definition lookup_node (fs : Disk) (p : Path) : option node :=
  match parts p with
  | [] => Some Dir
  | _ :: _ => fs !! p
  end.

(** [p.exists()] *)
Definition path_exists (fs : Disk) (p : Path) : bool :=
  match lookup_node fs p with Some _ => true | None => false end.

Definition is_child (d k : Path) : bool := bool_decide (parent k = Some d).

(** The paths of the tree that lie directly below [d]. *)
Definition entries (fs : Disk) (d : Path) : list Path :=
  List.filter (is_child d) (map_to_list fs).*1.

(** [p.iterdir()]: the entries of a directory; anything else raises. *)
Definition iterdir (fs : Disk) (d : Path) : option (list Path) :=
  match lookup_node fs d with
  | Some Dir => Some (entries fs d)
  | _ => None
  end.

(** A tree: whatever exists lies in a directory. *)
Definition well_formed (fs : Disk) : Prop :=
  forall k d, is_Some (fs !! k) -> parent k = Some d -> lookup_node fs d = Some Dir.

(** [p.unlink()] removes a file; a directory or a missing entry raises. *)
Definition unlink (fs : Disk) (p : Path) : option Disk :=
  match fs !! p with
  | Some (File _) => Some (delete p fs)
  | _ => None
  end.

(** [p.mkdir(parents=True, exist_ok=True)], walking down from [base]:
    existing directories are kept, missing ones are made, and a file on the
    way raises. *)
Fixpoint mkdir_from (anc : bool) (base rest : list str) (fs : Disk) : option Disk :=
  match rest with
  | [] => Some fs
  | c :: rest' =>
      let p := {| anchored := anc; parts := base ++ [c] |} in
      match fs !! p with
      | Some Dir => mkdir_from anc (base ++ [c]) rest' fs
      | Some (File _) => None
      | None => mkdir_from anc (base ++ [c]) rest' (<[p := Dir]> fs)
      end
  end.

Definition mkdir_p (fs : Disk) (p : Path) : option Disk :=
  mkdir_from (anchored p) [] (parts p) fs.

(** [image.save(p)]: the parent has to be a directory and [p] must not be
    one; an existing file is overwritten. *)
Definition write_file (fs : Disk) (p : Path) (data : image) : option Disk :=
  match parent p with
  | Some d =>
      match lookup_node fs d, fs !! p with
      | Some Dir, Some Dir => None
      | Some Dir, _ => Some (<[p := File data]> fs)
      | _, _ => None
      end
  | None => None
  end.

(** ** The outside world *)

Inductive device : Type := cuda | cpu.

(** What the script prints, one constructor per [print] call. *)
Inductive message : Type :=
| MsgDevice (d : device)
| MsgLoadingModel
| MsgGenerating (name : str) (frames_dir : Path)
| MsgFrameFailed (name : str)
| MsgAssembling (out_mp4 : Path)
| MsgSaved (out_mp4 : Path)
| MsgAssembleFailed (name : str)
| MsgAllDone (out_base : Path).

(** What the script asks of its collaborators, in the order it asks. *)
Inductive event : Type :=
| EvPrint (m : message)
| EvLoadModel (model_id : str)
| EvLoadPlanets (path : str)
| EvRun (cmd : list str) (ok : bool)
| EvSample (prompt : str) (width height steps : Z) (d : device) (seed : Z)
| EvSave (p : Path).

(** A loaded pipeline, called as
    [pipeline(prompt, width=, height=, num_inference_steps=, generator=)]
    with a generator seeded on a device; [None] stands for a raised
    exception. Its answer may depend on everything that happened before. *)
Definition Pipeline : Type :=
  list event -> str -> Z -> Z -> Z -> device -> Z -> option image.

(** One record of the catalog: the two fields the script reads. A missing
    field and a JSON [null] both read as [None]. *)
Record planet : Type := { get_pl_name : option str; get_name : option str }.

Record World : Type := {
  (** whether [from diffusers import StableDiffusionPipeline] worked *)
  diffusers_installed : bool;
  (** [os.environ.get] *)
  environ_get : str -> option str;
  (** [torch.cuda.is_available()] *)
  cuda_is_available : bool;
  (** [StableDiffusionPipeline.from_pretrained(...)] followed by [.to(device)] *)
  from_pretrained : str -> device -> option Pipeline;
  (** [json.load] on the opened file *)
  read_json : str -> option (list planet);
  (** [subprocess.run(cmd, check=True)]: whether the command ran and exited
      with status 0 *)
  subprocess_run : list event -> list str -> bool
}.

(** Command-line arguments, as argparse leaves them. *)
Record Args : Type := {
  data : str; outdir : str; frames : Z; fps : Z;
  width : Z; height : Z; model : str; limit : Z
}.

(** ** The monad: state, exceptions, and the trace *)

(** The exceptions of the run: the script's own [RuntimeError]s with their
    text, and those raised by the operating system, by a subprocess that
    failed, and by the imaging libraries. All are subclasses of
    [Exception]. *)
Inductive exn : Type :=
| RuntimeError (msg : str)
| OSError
| SubprocessError
| LibraryError.

Record State : Type := { fs : Disk; trace : list event }.

Inductive Res (A : Type) : Type :=
| Ok (a : A) (st : State)
| Raise (e : exn) (st : State).
Arguments Ok {A} a st.
Arguments Raise {A} e st.

Definition M (A : Type) : Type := State -> Res A.

Definition ret {A} (a : A) : M A := fun st => Ok a st.

Definition bind {A B} (m : M A) (k : A -> M B) : M B :=
  fun st => match m st with
            | Ok a st' => k a st'
            | Raise e st' => Raise e st'
            end.

Definition raise {A} (e : exn) : M A := fun st => Raise e st.

(** [try: m  except Exception: handler] *)
Definition try_except {A} (m : M A) (handler : exn -> M A) : M A :=
  fun st => match m st with
            | Ok a st' => Ok a st'
            | Raise e st' => handler e st'
            end.

Declare Scope py_scope.
Delimit Scope py_scope with py.
Notation "'let*' x ':=' m 'in' k" := (bind m (fun x => k))
  (at level 10, x name, m at level 100, k at level 200) : py_scope.
Notation "m '>>' k" := (bind m (fun _ => k))
  (at level 100, k at level 200, right associativity) : py_scope.
Local Open Scope py_scope.

Definition state_of {A} (r : Res A) : State :=
  match r with Ok _ st => st | Raise _ st => st end.

Definition emit (e : event) : M unit :=
  fun st => Ok tt {| fs := fs st; trace := trace st ++ [e] |}.

Definition print (m : message) : M unit := emit (EvPrint m).

(** Lift a file-system operation: [None] raises [OSError]. *)
Definition fs_op (op : Disk -> option Disk) : M unit :=
  fun st => match op (fs st) with
            | Some fs' => Ok tt {| fs := fs'; trace := trace st |}
            | None => Raise OSError st
            end.

Definition get_trace : M (list event) := fun st => Ok (trace st) st.
Definition get_fs : M Disk := fun st => Ok (fs st) st.

(** [for x in xs: body] *)
Fixpoint for_each {A} (xs : list A) (body : A -> M unit) : M unit :=
  match xs with
  | [] => ret tt
  | x :: xs' => body x >> for_each xs' body
  end.

(** ** The script *)

(** [range(n)] *)
Definition range (n : Z) : list Z := List.map Z.of_nat (seq 0 (Z.to_nat n)).

(** [enumerate(xs)], counting from [i]. *)
Fixpoint enumerate_from {A} (i : Z) (xs : list A) : list (Z * A) :=
  match xs with
  | [] => []
  | x :: xs' => (i, x) :: enumerate_from (i + 1) xs'
  end.

Definition enumerate {A} (xs : list A) : list (Z * A) := enumerate_from 0 xs.

(** Truth value of an optional string: [None] and [''] are false. *)
Definition truthy (o : option str) : bool :=
  match o with Some (_ :: _) => true | _ => false end.

(** [a or b] *)
Definition py_or (a b : option str) : option str := if truthy a then a else b.

Definition ffmpeg_version_cmd : list str := [lit "ffmpeg"; lit "-version"].

Definition frame_suffix : str :=
  lit ", cinematic, ultra-detailed, wide shot, subtle camera movement, frame ".

(** [f"frame_{i:04d}.png"] *)
Definition frame_file (i : Z) : str := lit "frame_" ++ format_0d 4 i ++ lit ".png".

(** Line 65: [[int(1000 + i * 7) for i in range(num_frames)]] *)
Definition default_seeds (num_frames : Z) : list Z :=
  List.map (fun i => 1000 + i * 7) (range num_frames).

Definition ffmpeg_not_found : str :=
  lit "ffmpeg not found in PATH. Install ffmpeg and ensure it is available.".

(** Lines 80 to 83: the command line of the encoder. *)
Definition assemble_cmd (frames_dir out_path : Path) (fps : Z) : list str :=
  [ lit "ffmpeg"; lit "-y"; lit "-framerate"; str_of_int fps;
    lit "-i"; path_str (joinpath frames_dir (lit "frame_%04d.png"));
    lit "-c:v"; lit "libx264"; lit "-pix_fmt"; lit "yuv420p";
    lit "-movflags"; lit "+faststart"; path_str out_path ].

Section Script.
Context `{UnicodeData} (W : World).

(** [subprocess.run(cmd, ..., check=True)] *)
Definition run (cmd : list str) : M unit :=
  let* hist := get_trace in
  let ok := subprocess_run W hist cmd in
  emit (EvRun cmd ok) >>
  if ok then ret tt else raise SubprocessError.

Definition load_planets (path : str) : M (list planet) :=
  emit (EvLoadPlanets path) >>
  match read_json W path with
  | Some planets => ret planets
  | None => raise OSError
  end.

Definition ensure_ffmpeg : M unit :=
  try_except (run ffmpeg_version_cmd)
    (fun _ => raise (RuntimeError ffmpeg_not_found)).

(** Lines 71 and 72: seed a generator and call the pipeline. *)
Definition sample (pipeline : Pipeline) (prompt : str)
    (width height steps : Z) (dev : device) (seed : Z) : M image :=
  let* hist := get_trace in
  emit (EvSample prompt width height steps dev seed) >>
  match pipeline hist prompt width height steps dev seed with
  | Some img => ret img
  | None => raise LibraryError
  end.

(** Line 74: [image.save(frame_path)] *)
Definition save (img : image) (p : Path) : M unit :=
  fs_op (fun fs => write_file fs p img) >> emit (EvSave p).

(** Lines 70 to 74: the body of the loop over [enumerate(seeds)]. *)
Definition frame_step (pipeline : Pipeline) (prompt : str) (out_dir : Path)
    (width height : Z) (dev : device) (f : Z * Z) : M unit :=
  let '(i, s) := f in
  let frame_prompt := prompt ++ frame_suffix ++ str_of_int (i + 1) in
  let* img := sample pipeline frame_prompt width height 20 dev s in
  let frame_path := joinpath out_dir (frame_file i) in
  save img frame_path.

Definition make_frames_for_prompt (pipeline : Pipeline) (prompt : str)
    (out_dir : Path) (num_frames width height : Z) (dev : device)
    (seeds : option (list Z)) : M Path :=
  fs_op (fun fs => mkdir_p fs out_dir) >>
  let seeds := match seeds with
               | None => default_seeds num_frames
               | Some l => l
               end in
  for_each (enumerate seeds)
           (frame_step pipeline prompt out_dir width height dev) >>
  ret out_dir.

Definition assemble_video (frames_dir out_path : Path) (fps : Z) : M unit :=
  let cmd := assemble_cmd frames_dir out_path fps in
  run cmd.

(** Line 111: [planet.get('pl_name') or planet.get('name') or 'planet'] *)
Definition planet_name (p : planet) : str :=
  match py_or (py_or (get_pl_name p) (get_name p)) (Some (lit "planet")) with
  | Some s => s
  | None => []
  end.

(** Line 113 *)
Definition planet_prompt (name : str) : str :=
  lit "A cinematic, highly detailed landscape of the exoplanet named "
  ++ name
  ++ lit ". Alien terrain, dramatic sky, vibrant colors, photorealistic".

(** Lines 117 to 120: remove existing frames, then make the directory. *)
Definition reset_frames_dir (frames_dir : Path) : M unit :=
  let* tree := get_fs in
  (if path_exists tree frames_dir then
     match iterdir tree frames_dir with
     | Some entries => for_each entries (fun f => fs_op (fun fs => unlink fs f))
     | None => raise OSError
     end
   else ret tt) >>
  fs_op (fun fs => mkdir_p fs frames_dir).

(** Lines 122 to 135: frames, then the video. The [continue] of line 127
    is the early [ret tt]. *)
Definition generate_and_assemble (args : Args) (pipe : Pipeline) (dev : device)
    (out_base : Path) (name safe prompt : str) (frames_dir : Path) : M unit :=
  print (MsgGenerating name frames_dir) >>
  let* generated :=
    try_except
      (make_frames_for_prompt pipe prompt frames_dir (frames args)
         (width args) (height args) dev None >> ret true)
      (fun _ => print (MsgFrameFailed name) >> ret false) in
  if negb generated then ret tt
  else
    let out_mp4 := joinpath out_base (safe ++ lit ".mp4") in
    print (MsgAssembling out_mp4) >>
    try_except
      (assemble_video frames_dir out_mp4 (fps args) >> print (MsgSaved out_mp4))
      (fun _ => print (MsgAssembleFailed name)).

(** Lines 111 to 135: the body of the loop over the catalog. *)
Definition process_planet (args : Args) (pipe : Pipeline) (dev : device)
    (out_base working : Path) (p : planet) : M unit :=
  let name := planet_name p in
  let safe := safe_name name in
  let prompt := planet_prompt name in
  let frames_dir := joinpath working safe in
  reset_frames_dir frames_dir >>
  generate_and_assemble args pipe dev out_base name safe prompt frames_dir.

Definition WORKING : Path := Path_of (lit ".cache_video_frames").

(** Lines 106 to 137: the working directory, the loop, the last print. *)
Definition process_catalog (args : Args) (pipe : Pipeline) (dev : device)
    (planets : list planet) : M unit :=
  let out_base := Path_of (outdir args) in
  let working := WORKING in
  fs_op (fun fs => mkdir_p fs working) >>
  for_each planets (process_planet args pipe dev out_base working) >>
  print (MsgAllDone out_base).

Definition generate_videos (args : Args) : M unit :=
  if negb (diffusers_installed W) then
    raise (RuntimeError
      (lit "diffusers/torch not installed. Install dependencies first (see top of script)."))
  else
  let hf_token := py_or (environ_get W (lit "HUGGINGFACE_TOKEN"))
                        (environ_get W (lit "HF_TOKEN")) in
  if negb (truthy hf_token) then
    raise (RuntimeError
      (lit "HUGGINGFACE_TOKEN env var is required to download models from Hugging Face."))
  else
  let dev := if cuda_is_available W then cuda else cpu in
  print (MsgDevice dev) >>
  let model_id := model args in
  print MsgLoadingModel >>
  let* pipe :=
    (emit (EvLoadModel model_id) >>
     match from_pretrained W model_id dev with
     | Some pipe => ret pipe
     | None => raise LibraryError
     end) in
  let* planets := load_planets (data args) in
  ensure_ffmpeg >>
  process_catalog args pipe dev planets.

(** One invocation of the script: it starts with an empty trace, on
    whatever the disk holds. *)
Definition main (args : Args) (disk : Disk) : Res unit :=
  generate_videos args {| fs := disk; trace := [] |}.

End Script.

(** ** Reading traces and results *)

Definition is_ok {A} (r : Res A) : Prop :=
  match r with Ok _ _ => True | Raise _ _ => False end.

Definition is_okb {A} (r : Res A) : bool :=
  match r with Ok _ _ => true | Raise _ _ => false end.

(** The requests to the pipeline recorded in a trace: prompt and seed, in
    order; and the files saved. *)
Definition sampled (evs : list event) : list (str * Z) :=
  List.flat_map (fun e => match e with
                          | EvSample prompt _ _ _ _ seed => [(prompt, seed)]
                          | _ => []
                          end) evs.

Definition saved (evs : list event) : list Path :=
  List.flat_map (fun e => match e with EvSave p => [p] | _ => [] end) evs.

(** The model identifiers of the load attempts recorded in a trace. *)
Definition model_loads (evs : list event) : list str :=
  List.flat_map (fun e => match e with EvLoadModel m => [m] | _ => [] end) evs.

(** The records whose frame generation was announced, by name. *)
Definition attempted (evs : list event) : list str :=
  List.flat_map (fun e => match e with
                          | EvPrint (MsgGenerating name _) => [name]
                          | _ => []
                          end) evs.

(** The commands handed to [subprocess.run]. *)
Definition commands (evs : list event) : list (list str) :=
  List.flat_map (fun e => match e with EvRun cmd _ => [cmd] | _ => [] end) evs.

(** Prompt and seed of frame [f = (i, s)], and the file it is saved to. *)
Definition frame_request (prompt : str) (f : Z * Z) : str * Z :=
  (prompt ++ frame_suffix ++ str_of_int (f.1 + 1), f.2).

Definition frame_path (out_dir : Path) (f : Z * Z) : Path :=
  joinpath out_dir (frame_file f.1).

(** [emits P m]: whatever the state and the outcome, [m] only appends to the
    trace, and every event it appends satisfies [P]. *)
Definition emits {A} (P : event -> Prop) (m : M A) : Prop :=
  forall st, exists evs,
    trace (state_of (m st)) = trace st ++ evs /\ List.Forall P evs.

Definition is_frame_event (e : event) : Prop :=
  match e with
  | EvSample _ _ _ _ _ _ | EvSave _ => True
  | _ => False
  end.

(** The events of the loop over the catalog: prints, frames, and runs of
    commands other than the probe. *)
Definition is_record_event (e : event) : Prop :=
  match e with
  | EvPrint _ | EvSample _ _ _ _ _ _ | EvSave _ => True
  | EvRun cmd _ => cmd <> ffmpeg_version_cmd
  | _ => False
  end.

(** ** Reading formatted numbers back *)

(** The number a run of decimal digits stands for, most significant digit
    first. *)
Definition digit_val (c : char) : N := (c - 48)%N.

Fixpoint val_acc (acc : N) (s : str) : N :=
  match s with
  | [] => acc
  | c :: s' => val_acc (10 * acc + digit_val c) s'
  end.

Definition val (s : str) : N := val_acc 0 s.

(** Ten to the number of characters. *)
Definition weight (s : str) : N := (10 ^ N.of_nat (length s))%N.

Definition is_digit (c : char) : Prop := (48 <= c <= 57)%N.

(** ** Shapes of the tree *)

(** A checkable form of [well_formed], for concrete trees. *)
Definition well_formedb (fs : Disk) : bool :=
  forallb (fun k => match parent k with
                    | Some d => match lookup_node fs d with
                                | Some Dir => true
                                | _ => false
                                end
                    | None => true
                    end) (map_to_list fs).*1.

(** The working directory as the script keeps it: a directory of
    directories of files. *)
Definition tidy (fs : Disk) : Prop :=
  fs !! WORKING = Some Dir
  /\ (forall k, parent k = Some WORKING -> is_Some (fs !! k) -> fs !! k = Some Dir)
  /\ (forall k d, parent k = Some d -> parent d = Some WORKING ->
        is_Some (fs !! k) -> exists x, fs !! k = Some (File x)).

(** ** Concrete settings for the examples *)

(** A character table that knows no letter, digit or blank beyond ASCII:
    enough to run the script on ASCII names. *)
Definition ascii_only : UnicodeData :=
  {| uni_isalnum := fun _ => false; uni_isspace := fun _ => false |}.

(** A pipeline that always answers, and a run on an empty disk: the
    concrete setting of the examples below. *)
Definition demo_pipeline : Pipeline := fun _ _ _ _ _ _ seed => Some (Z.to_N seed).

(** A pipeline that raises the first time it is called and answers from then
    on. *)
Definition flaky_pipeline : Pipeline :=
  fun hist _ _ _ _ _ seed =>
    match sampled hist with
    | [] => None
    | _ :: _ => Some (Z.to_N seed)
    end.

Definition fresh : State := {| fs := ∅; trace := [] |}.

Definition kepler : planet :=
  {| get_pl_name := Some (lit "Kepler-10b"); get_name := None |}.

(** A disk with frames of an earlier run of two records. *)
Definition stale_disk : Disk :=
  let kepler := joinpath WORKING (lit "Kepler-10b") in
  let other := joinpath WORKING (lit "badname") in
  <[joinpath kepler (frame_file 0) := File 11%N]>
  (<[joinpath kepler (frame_file 7) := File 12%N]>
  (<[joinpath other (frame_file 0) := File 13%N]>
  (<[kepler := Dir]> (<[other := Dir]> (<[WORKING := Dir]> ∅))))).

(** The setting of the examples: the catalog of the specification's
    example, arguments close to the defaults, and a world in which
    everything is installed; whether the probe finds [ffmpeg], which pipeline
    the model gives and whether the encoder succeeds are left open. *)
Definition example_catalog : list planet :=
  [ {| get_pl_name := None; get_name := Some (lit "Kepler-10b") |};
    {| get_pl_name := None; get_name := Some (lit "??bad/name") |} ].

Definition example_args (limit : Z) : Args :=
  {| data := lit "public/data/planets.min.json"; outdir := lit "public/images";
     frames := 2; fps := 12; width := 1024; height := 576;
     model := lit "runwayml/stable-diffusion-v1-5"; limit := limit |}.

Definition example_world (ffmpeg_found : bool) (pipe : Pipeline)
    (encoder_ok : bool) : World :=
  {| diffusers_installed := true;
     environ_get := fun k => if str_eqb k (lit "HF_TOKEN")
                             then Some (lit "hf_token") else None;
     cuda_is_available := false;
     from_pretrained := fun _ _ => Some pipe;
     read_json := fun _ => Some example_catalog;
     subprocess_run := fun _ cmd => if bool_decide (cmd = ffmpeg_version_cmd)
                                    then ffmpeg_found else encoder_ok |}.


(** ** More ways to read a run *)

(** [touches P m]: whatever the state and the outcome, [m] leaves every path
    outside [P] as it was. *)
Definition touches {A} (P : Path -> Prop) (m : M A) : Prop :=
  forall st k, ~ P k -> fs (state_of (m st)) !! k = fs st !! k.

(** [k] is [d] or one of the directories above it, the current directory
    apart. *)
Definition leads_to (k d : Path) : Prop :=
  anchored k = anchored d /\ parts k <> [] /\ parts k `prefix_of` parts d.

(** The paths at and below [.cache_video_frames]. *)
Definition in_cache (k : Path) : Prop :=
  anchored k = false /\ exists rest, parts k = lit ".cache_video_frames" :: rest.

(** The catalog files read, as recorded in a trace. *)
Definition catalog_reads (evs : list event) : list str :=
  List.flat_map (fun e => match e with EvLoadPlanets f => [f] | _ => [] end) evs.

(** The device line 95 settles on. *)
Definition chosen_device (W : World) : device :=
  if cuda_is_available W then cuda else cpu.

(** The events of a run before the loop, up to and with the probe. *)
Definition preamble (W : World) (args : Args) (probe_ok : bool) : list event :=
  [EvPrint (MsgDevice (chosen_device W)); EvPrint MsgLoadingModel;
   EvLoadModel (model args); EvLoadPlanets (data args);
   EvRun ffmpeg_version_cmd probe_ok].

Definition diffusers_missing : str :=
  lit "diffusers/torch not installed. Install dependencies first (see top of script).".

Definition token_missing : str :=
  lit "HUGGINGFACE_TOKEN env var is required to download models from Hugging Face.".

(** Whether one of the two token variables holds a string that is not
    empty. *)
Definition has_token (W : World) : bool :=
  truthy (py_or (environ_get W (lit "HUGGINGFACE_TOKEN"))
                (environ_get W (lit "HF_TOKEN"))).

Section RunEvents.
Context `{UnicodeData} (W : World) (args : Args).

(** The frames directory and the video of a record. *)
Definition frames_dir_of (p : planet) : Path :=
  joinpath WORKING (safe_name (planet_name p)).

Definition video_of (p : planet) : Path :=
  joinpath (Path_of (outdir args)) (safe_name (planet_name p) ++ lit ".mp4").

(** What the loop may record for the record [p]: prints; requests for one
    of its frames, with the prompt, the seed and the sizes of that frame;
    saves of one of its frame files; the run of its encoder command. *)
Definition event_of_record (p : planet) (e : event) : Prop :=
  match e with
  | EvPrint _ => True
  | EvSample prompt w h steps d seed =>
      exists i, 0 <= i < frames args
        /\ prompt = planet_prompt (planet_name p) ++ frame_suffix ++ str_of_int (i + 1)
        /\ seed = 1000 + i * 7
        /\ w = width args /\ h = height args /\ steps = 20 /\ d = chosen_device W
  | EvSave k =>
      exists i, 0 <= i < frames args /\ k = joinpath (frames_dir_of p) (frame_file i)
  | EvRun cmd _ => cmd = assemble_cmd (frames_dir_of p) (video_of p) (fps args)
  | EvLoadModel _ | EvLoadPlanets _ => False
  end.

(** What the loop may record for a catalog. *)
Definition event_of_catalog (planets : list planet) (e : event) : Prop :=
  (exists m, e = EvPrint m) \/ exists p, List.In p planets /\ event_of_record p e.

End RunEvents.

(** ** More concrete settings *)

(** A pipeline that answers once and raises from then on. *)
Definition one_shot_pipeline : Pipeline :=
  fun hist _ _ _ _ _ seed =>
    match sampled hist with
    | [] => Some (Z.to_N seed)
    | _ :: _ => None
    end.

(** A world with both token variables set to the empty string. *)
Definition empty_token_world : World :=
  {| diffusers_installed := true;
     environ_get := fun _ => Some [];
     cuda_is_available := true;
     from_pretrained := fun _ _ => Some demo_pipeline;
     read_json := fun _ => Some example_catalog;
     subprocess_run := fun _ _ => true |}.

(** A record whose name has no character that sanitisation keeps, and one
    with an empty [pl_name] beside its [name]. *)
Definition question_marks : planet :=
  {| get_pl_name := None; get_name := Some (lit "??") |}.

Definition empty_pl_name : planet :=
  {| get_pl_name := Some []; get_name := Some (lit "Kepler-10b") |}.

(** A working directory that holds the directory of one record. *)
Definition one_record_disk : Disk :=
  <[joinpath WORKING (lit "Kepler-10b") := Dir]> {[ WORKING := Dir ]}.




(** * Properties *)

(** ** Worked examples *)

Example safe_name_examples `{UnicodeData} :
  safe_name (lit "Kepler-10b") = lit "Kepler-10b"
  /\ safe_name (lit "??bad/name") = lit "badname"
  /\ safe_name (lit "  TRAPPIST 1 e ") = lit "TRAPPIST_1_e"
  /\ format_0d 4 7 = lit "0007" /\ format_0d 4 12345 = lit "12345"
  /\ format_0d 4 (-5) = lit "-005" /\ str_of_int (-12) = lit "-12"
  /\ str_of_int 0 = lit "0".
Proof. repeat split; reflexivity. Qed.

Example path_examples :
  Path_of (lit "public/images") = mkPath false [lit "public"; lit "images"]
  /\ Path_of (lit "/tmp//out/./x/") = mkPath true [lit "tmp"; lit "out"; lit "x"]
  /\ joinpath (Path_of (lit ".cache_video_frames")) (lit "Kepler-10b")
     = mkPath false [lit ".cache_video_frames"; lit "Kepler-10b"]
  /\ joinpath (Path_of (lit ".cache_video_frames")) []
     = mkPath false [lit ".cache_video_frames"]
  /\ path_str (joinpath (Path_of (lit "public/images")) (lit "a.mp4"))
     = lit "public/images/a.mp4"
  /\ path_name (joinpath (Path_of (lit "public/images")) (lit "a.mp4")) = lit "a.mp4".
Proof. repeat split; reflexivity. Qed.

(** ** Sanitised names *)

Section SanitiseFacts.
Context `{UnicodeData}.

Lemma lstrip_length s : (length (lstrip s) <= length s)%nat.
Proof.
  induction s as [|c s IH]; simpl; [lia|].
  destruct (isspace c); simpl; lia.
Qed.

Lemma lstrip_clean_start s : clean_start (lstrip s) = true.
Proof.
  induction s as [|c s IH]; simpl; [reflexivity|].
  destruct (isspace c) eqn:E; [exact IH|]. simpl. now rewrite E.
Qed.

Lemma lstrip_fixed s : lstrip s = s <-> clean_start s = true.
Proof.
  split.
  - intros E. rewrite <- E. apply lstrip_clean_start.
  - destruct s as [|c s]; simpl; [reflexivity|].
    now destruct (isspace c).
Qed.

(** What [lstrip] removes is a run of blanks in front. *)
Lemma lstrip_split s :
  exists w, s = w ++ lstrip s /\ List.Forall (fun c => isspace c = true) w.
Proof.
  induction s as [|c s (w & E & Hw)]; simpl.
  - exists []. split; [reflexivity | constructor].
  - destruct (isspace c) eqn:Ec.
    + exists (c :: w). split; [simpl; congruence | now constructor].
    + exists []. split; [reflexivity | constructor].
Qed.

Lemma rstrip_clean_end s : clean_start (rev (rstrip s)) = true.
Proof. unfold rstrip. rewrite rev_involutive. apply lstrip_clean_start. Qed.

Lemma rstrip_keeps_clean_start s :
  clean_start s = true -> clean_start (rstrip s) = true.
Proof.
  intros Hs. unfold rstrip.
  destruct (lstrip_split (rev s)) as (w & E & _).
  apply (f_equal (@rev char)) in E.
  rewrite rev_involutive, rev_app_distr in E.
  destruct (rev (lstrip (rev s))) as [|c r]; [reflexivity|].
  rewrite E in Hs. exact Hs.
Qed.

Lemma strip_clean s :
  clean_start (strip s) = true /\ clean_start (rev (strip s)) = true.
Proof.
  unfold strip. split.
  - apply rstrip_keeps_clean_start, lstrip_clean_start.
  - apply rstrip_clean_end.
Qed.

Lemma strip_fixed s :
  clean_start s = true -> clean_start (rev s) = true -> strip s = s.
Proof.
  intros H1 H2. unfold strip, rstrip.
  apply lstrip_fixed in H1, H2. rewrite H1, H2. apply rev_involutive.
Qed.

Lemma isspace_SPACE : isspace SPACE = true.
Proof. reflexivity. Qed.

Lemma isspace_UNDERSCORE : isspace UNDERSCORE = false.
Proof. reflexivity. Qed.

Lemma kept_UNDERSCORE : kept UNDERSCORE = true.
Proof. reflexivity. Qed.

Lemma replace_clean_start s :
  clean_start s = true -> clean_start (replace SPACE UNDERSCORE s) = true.
Proof.
  destruct s as [|c s]; simpl; [reflexivity|].
  destruct (N.eqb_spec c SPACE) as [->|]; [|trivial].
  now rewrite isspace_SPACE.
Qed.

Lemma replace_rev s :
  rev (replace SPACE UNDERSCORE s) = replace SPACE UNDERSCORE (rev s).
Proof. unfold replace. symmetry. apply map_rev. Qed.

Lemma replace_replace s :
  replace SPACE UNDERSCORE (replace SPACE UNDERSCORE s)
  = replace SPACE UNDERSCORE s.
Proof.
  unfold replace. rewrite List.map_map. apply List.map_ext. intros c.
  destruct (N.eqb_spec c SPACE); [reflexivity|].
  destruct (N.eqb_spec c SPACE); [contradiction | reflexivity].
Qed.

Lemma filter_fixed (s : str) : List.Forall (fun c => kept c = true) s ->
  List.filter kept s = s.
Proof.
  induction 1 as [|c s Hc _ IH]; simpl; [reflexivity|].
  now rewrite Hc, IH.
Qed.

Lemma Forall_lstrip (P : char -> Prop) s :
  List.Forall P s -> List.Forall P (lstrip s).
Proof.
  induction 1 as [|c s Hc Hs IH]; simpl; [constructor|].
  destruct (isspace c); [exact IH | now constructor].
Qed.

Lemma Forall_strip (P : char -> Prop) s :
  List.Forall P s -> List.Forall P (strip s).
Proof.
  intros Hs. unfold strip, rstrip.
  apply List.Forall_rev, Forall_lstrip, List.Forall_rev, Forall_lstrip, Hs.
Qed.

Lemma Forall_replace s :
  List.Forall (fun c => kept c = true) s ->
  List.Forall (fun c => kept c = true) (replace SPACE UNDERSCORE s).
Proof.
  induction 1 as [|c s Hc _ IH]; simpl; constructor; [|exact IH].
  destruct (c =? SPACE)%N; [apply kept_UNDERSCORE | exact Hc].
Qed.

(** Every character of a sanitised name passed the filter of line 112. *)
Lemma safe_name_kept name :
  List.Forall (fun c => kept c = true) (safe_name name).
Proof.
  unfold safe_name. apply Forall_replace, Forall_strip.
  apply List.Forall_forall. intros c Hc.
  now apply List.filter_In in Hc.
Qed.

(** C7: sanitising an already sanitised name gives the same name, for
    every string: the filter keeps every character of it, nothing is left
    to strip at either end, and no space is left to replace. *)
Theorem safe_name_idempotent (s : str) :
  safe_name (safe_name s) = safe_name s.
Proof.
  pose proof (safe_name_kept s) as Hk.
  unfold safe_name at 1. rewrite (filter_fixed _ Hk).
  unfold safe_name in *.
  destruct (strip_clean (List.filter kept s)) as [H1 H2].
  rewrite strip_fixed.
  - apply replace_replace.
  - now apply replace_clean_start.
  - rewrite replace_rev. now apply replace_clean_start.
Qed.

End SanitiseFacts.

(** C3, as the code has it: the filter of line 112 drops [?] and [/] and puts
    nothing in their place, so the record named [??bad/name] gets the
    identifier [badname] and the video [badname.mp4]; [Kepler-10b] is left
    as it is and its video is [Kepler-10b.mp4], under any output directory. *)
Theorem sanitized_examples `{UnicodeData} (out_base : Path) :
  let bad := {| get_pl_name := None; get_name := Some (lit "??bad/name") |} in
  let kepler := {| get_pl_name := None; get_name := Some (lit "Kepler-10b") |} in
  safe_name (planet_name bad) = lit "badname"
  /\ safe_name (planet_name kepler) = lit "Kepler-10b"
  /\ path_name (joinpath out_base (safe_name (planet_name bad) ++ lit ".mp4"))
     = lit "badname.mp4"
  /\ path_name (joinpath out_base (safe_name (planet_name kepler) ++ lit ".mp4"))
     = lit "Kepler-10b.mp4".
Proof.
  cbv zeta. repeat split; try reflexivity.
  - change (safe_name _ ++ _) with (lit "badname.mp4").
    unfold path_name, joinpath. simpl. apply List.last_last.
  - change (safe_name _ ++ _) with (lit "Kepler-10b.mp4").
    unfold path_name, joinpath. simpl. apply List.last_last.
Qed.

(** C3 as the specification words it fails: the identifier of [??bad/name]
    is not [bad_name], and its video is not [bad_name.mp4]. *)
Lemma sanitized_bad_name_counterexample :
  let bad := {| get_pl_name := None; get_name := Some (lit "??bad/name") |} in
  let kepler := {| get_pl_name := None; get_name := Some (lit "Kepler-10b") |} in
  let video p := path_name (joinpath (Path_of (lit "public/images"))
                              (@safe_name ascii_only (planet_name p) ++ lit ".mp4")) in
  ~ (@safe_name ascii_only (planet_name bad) = lit "bad_name"
     /\ @safe_name ascii_only (planet_name kepler) = lit "Kepler-10b"
     /\ video bad = lit "bad_name.mp4"
     /\ video kepler = lit "Kepler-10b.mp4").
Proof. vm_compute. intros [Hbad _]. discriminate Hbad. Qed.

(** ** Integers as text: digits, padding, order *)

Lemma lit_uint_digits d : List.Forall is_digit (lit (NilEmpty.string_of_uint d)).
Proof.
  induction d; simpl; constructor; try exact IHd; unfold is_digit; simpl; lia.
Qed.

Lemma N_to_uint_nonnil n : N.to_uint n <> Decimal.Nil.
Proof.
  destruct n as [|p]; simpl; [discriminate|].
  apply DecimalPos.Unsigned.to_uint_nonnil.
Qed.

Lemma digits_NilEmpty n :
  digits n = lit (NilEmpty.string_of_uint (N.to_uint n)).
Proof.
  unfold digits, NilZero.string_of_uint.
  pose proof (N_to_uint_nonnil n). now destruct (N.to_uint n).
Qed.

Lemma digits_are_digits n : List.Forall is_digit (digits n).
Proof. rewrite digits_NilEmpty. apply lit_uint_digits. Qed.

Lemma format_0d_nonneg w z : 0 <= z ->
  format_0d w z = repeat 48%N (w - length (digits (Z.to_N z)))%nat ++ digits (Z.to_N z).
Proof.
  intros Hz. unfold format_0d.
  destruct (Z.ltb_spec z 0) as [|_]; [lia|]. simpl.
  replace (Z.abs_N z) with (Z.to_N z) by (destruct z; simpl; try reflexivity; lia).
  now rewrite Nat.sub_0_r.
Qed.

Lemma weight_cons c s : weight (c :: s) = (10 * weight s)%N.
Proof. unfold weight. simpl length. now rewrite Nat2N.inj_succ, N.pow_succ_r'. Qed.

Lemma weight_pos s : (0 < weight s)%N.
Proof. unfold weight. apply N.neq_0_lt_0, N.pow_nonzero. discriminate. Qed.

Lemma val_acc_weight s : forall acc,
  val_acc acc s = (acc * weight s + val s)%N.
Proof.
  unfold val. induction s as [|c s IH]; intros acc; simpl.
  - unfold weight. simpl. lia.
  - rewrite IH, (IH (10 * 0 + digit_val c)%N), weight_cons. lia.
Qed.

Lemma val_cons c s : val (c :: s) = (digit_val c * weight s + val s)%N.
Proof. unfold val at 1. simpl. now rewrite val_acc_weight. Qed.

Lemma val_bound s : List.Forall is_digit s -> (val s < weight s)%N.
Proof.
  induction 1 as [|c s Hc _ IH].
  - unfold val, weight. simpl. lia.
  - rewrite val_cons, weight_cons. unfold is_digit, digit_val in *. nia.
Qed.

Lemma val_uint_acc d : forall acc,
  val_acc (Npos acc) (lit (NilEmpty.string_of_uint d)) = Npos (Pos.of_uint_acc d acc).
Proof.
  induction d; intros acc; simpl; try reflexivity;
    rewrite <- IHd; f_equal; unfold digit_val; simpl; lia.
Qed.

Lemma val_uint d : val (lit (NilEmpty.string_of_uint d)) = N.of_uint d.
Proof.
  unfold val. induction d; simpl; try reflexivity; try exact IHd;
    apply (val_uint_acc d).
Qed.

Lemma val_digits n : val (digits n) = n.
Proof. rewrite digits_NilEmpty, val_uint. apply DecimalN.Unsigned.of_to. Qed.

Lemma val_zeros k s : val (repeat 48%N k ++ s) = val s.
Proof. induction k as [|k IH]; simpl; [reflexivity | exact IH]. Qed.

Lemma val_format_0d w z : 0 <= z -> val (format_0d w z) = Z.to_N z.
Proof.
  intros Hz. rewrite format_0d_nonneg by exact Hz.
  now rewrite val_zeros, val_digits.
Qed.

Lemma format_0d_inj w a b : 0 <= a -> 0 <= b ->
  format_0d w a = format_0d w b -> a = b.
Proof.
  intros Ha Hb E. apply (f_equal val) in E.
  rewrite !val_format_0d in E by assumption. lia.
Qed.

Lemma frame_file_inj a b : 0 <= a -> 0 <= b -> frame_file a = frame_file b -> a = b.
Proof.
  unfold frame_file. intros Ha Hb E.
  apply List.app_inv_head, List.app_inv_tail in E.
  now apply format_0d_inj in E.
Qed.

Lemma format_0d_chars w z :
  List.Forall (fun c => c = HYPHEN \/ is_digit c) (format_0d w z).
Proof.
  unfold format_0d. rewrite !List.Forall_app. repeat split.
  - destruct (z <? 0); repeat constructor.
  - apply List.Forall_forall. intros c Hc. apply List.repeat_spec in Hc.
    subst c. right. unfold is_digit. lia.
  - eapply List.Forall_impl; [|apply digits_are_digits]. intros; now right.
Qed.

(** A frame's file name is one path component. *)
Lemma frame_file_simple i :
  frame_file i <> [] /\ frame_file i <> lit "." /\ ~ List.In SLASH (frame_file i).
Proof.
  unfold frame_file. repeat split; try discriminate.
  rewrite !List.in_app_iff. intros [Hi | [Hi | Hi]].
  - vm_compute in Hi. intuition discriminate.
  - pose proof (format_0d_chars 4 i) as Hc.
    rewrite List.Forall_forall in Hc. destruct (Hc _ Hi) as [E | E].
    + discriminate E.
    + unfold is_digit, SLASH in E. lia.
  - vm_compute in Hi. intuition discriminate.
Qed.

(** *** Paths made of one more component *)

Lemma split_on_no_sep sep s : ~ List.In sep s -> split_on sep s = [s].
Proof.
  induction s as [|c s IH]; simpl; [reflexivity|].
  intros Hn. rewrite IH by tauto.
  destruct (N.eqb_spec c sep); [subst; tauto | reflexivity].
Qed.

Lemma Path_of_simple s :
  s <> [] -> s <> lit "." -> ~ List.In SLASH s -> Path_of s = mkPath false [s].
Proof.
  intros Hne Hdot Hs. unfold Path_of. rewrite split_on_no_sep by exact Hs.
  f_equal.
  - destruct s as [|c s]; [reflexivity|].
    destruct (N.eqb_spec c SLASH); [subst; simpl in Hs; tauto | reflexivity].
  - simpl. unfold str_eqb.
    rewrite !bool_decide_eq_false_2 by assumption. reflexivity.
Qed.

Lemma joinpath_simple p s :
  s <> [] -> s <> lit "." -> ~ List.In SLASH s ->
  joinpath p s = mkPath (anchored p) (parts p ++ [s]).
Proof. intros. unfold joinpath. now rewrite Path_of_simple. Qed.

Lemma parent_snoc a ws s : parent (mkPath a (ws ++ [s])) = Some (mkPath a ws).
Proof.
  unfold parent. simpl. destruct (ws ++ [s]) eqn:E.
  - now destruct ws.
  - rewrite <- E, List.removelast_last. reflexivity.
Qed.

Lemma frame_path_parent d i : parent (joinpath d (frame_file i)) = Some d.
Proof.
  destruct (frame_file_simple i) as (H1 & H2 & H3).
  rewrite joinpath_simple by assumption. rewrite parent_snoc. now destruct d.
Qed.

Lemma frame_path_inj d a b : 0 <= a -> 0 <= b ->
  joinpath d (frame_file a) = joinpath d (frame_file b) -> a = b.
Proof.
  intros Ha Hb.
  destruct (frame_file_simple a) as (A1 & A2 & A3).
  destruct (frame_file_simple b) as (B1 & B2 & B3).
  rewrite !joinpath_simple by assumption.
  intros E. apply (f_equal parts) in E. simpl in E.
  apply List.app_inv_head in E.
  apply frame_file_inj; [assumption | assumption | congruence].
Qed.

(** ** The monad: what a computation adds to the trace *)

Section Emits.
Context (P : event -> Prop).

Lemma emits_ret {A} (a : A) : emits P (ret a).
Proof. intros st. exists []. simpl. rewrite List.app_nil_r. auto. Qed.

Lemma emits_raise {A} e : emits P (@raise A e).
Proof. intros st. exists []. simpl. rewrite List.app_nil_r. auto. Qed.

Lemma emits_get_trace : emits P get_trace.
Proof. intros st. exists []. simpl. rewrite List.app_nil_r. auto. Qed.

Lemma emits_get_fs : emits P get_fs.
Proof. intros st. exists []. simpl. rewrite List.app_nil_r. auto. Qed.

Lemma emits_fs_op op : emits P (fs_op op).
Proof.
  intros st. exists []. unfold fs_op. rewrite List.app_nil_r.
  destruct (op (fs st)); simpl; auto.
Qed.

Lemma emits_emit e : P e -> emits P (emit e).
Proof. intros He st. exists [e]. simpl. auto. Qed.

Lemma emits_bind {A B} (m : M A) (k : A -> M B) :
  emits P m -> (forall a, emits P (k a)) -> emits P (bind m k).
Proof.
  intros Hm Hk st. unfold bind.
  destruct (Hm st) as (e1 & E1 & F1).
  destruct (m st) as [a st1 | e st1]; simpl in E1.
  - destruct (Hk a st1) as (e2 & E2 & F2).
    exists (e1 ++ e2). rewrite E2, E1, List.app_assoc.
    split; [reflexivity | now apply List.Forall_app].
  - exists e1. simpl. auto.
Qed.

Lemma emits_try {A} (m : M A) (handler : exn -> M A) :
  emits P m -> (forall e, emits P (handler e)) -> emits P (try_except m handler).
Proof.
  intros Hm Hh st. unfold try_except.
  destruct (Hm st) as (e1 & E1 & F1).
  destruct (m st) as [a st1 | e st1]; simpl in E1.
  - exists e1. simpl. auto.
  - destruct (Hh e st1) as (e2 & E2 & F2).
    exists (e1 ++ e2). rewrite E2, E1, List.app_assoc.
    split; [reflexivity | now apply List.Forall_app].
Qed.

Lemma emits_for_each {A} (xs : list A) (body : A -> M unit) :
  (forall x, emits P (body x)) -> emits P (for_each xs body).
Proof.
  intros Hb. induction xs as [|x xs IH]; simpl.
  - apply emits_ret.
  - apply emits_bind; [apply Hb | intros _; exact IH].
Qed.

End Emits.

Lemma emits_weaken {A} (P Q : event -> Prop) (m : M A) :
  (forall e, P e -> Q e) -> emits P m -> emits Q m.
Proof.
  intros HPQ Hm st. destruct (Hm st) as (evs & E & F).
  exists evs. split; [exact E | eapply List.Forall_impl; eauto].
Qed.

(** ** The frame sampler *)

Lemma sampled_app a b : sampled (a ++ b) = sampled a ++ sampled b.
Proof. unfold sampled. apply List.flat_map_app. Qed.

Lemma saved_app a b : saved (a ++ b) = saved a ++ saved b.
Proof. unfold saved. apply List.flat_map_app. Qed.

Section FrameSampler.
Context (pipeline : Pipeline) (prompt : str) (out_dir : Path)
        (width height : Z) (dev : device).

Let step := frame_step pipeline prompt out_dir width height dev.

(** One turn of the loop: either the picture is sampled and saved, or the
    turn raises after the request, leaving the tree as it was. *)
Lemma frame_step_cases f st :
  (exists img,
      write_file (fs st) (frame_path out_dir f) img = Some (fs (state_of (step f st)))
      /\ step f st = Ok tt (state_of (step f st))
      /\ trace (state_of (step f st))
         = trace st ++ [EvSample (frame_request prompt f).1 width height 20 dev f.2;
                        EvSave (frame_path out_dir f)])
  \/ (~ is_ok (step f st)
      /\ fs (state_of (step f st)) = fs st
      /\ trace (state_of (step f st))
         = trace st ++ [EvSample (frame_request prompt f).1 width height 20 dev f.2]).
Proof.
  destruct f as [i s]. subst step.
  unfold frame_step, sample, save, bind, get_trace, emit, fs_op, frame_path.
  simpl.
  destruct (pipeline _ _ _ _ _ _ _) as [img|]; simpl.
  - destruct (write_file _ _ img) as [fs'|] eqn:Ew; simpl.
    + left. exists img. rewrite <- List.app_assoc. auto.
    + right. auto.
  - right. auto.
Qed.

(** The whole loop over [enumerate(seeds)]: requests and saved files follow
    the list, in order, up to the turn that raised, if one did. *)
Lemma frame_loop_trace (l : list (Z * Z)) st :
  let r := for_each l step st in
  exists evs,
    trace (state_of r) = trace st ++ evs
    /\ sampled evs `prefix_of` List.map (frame_request prompt) l
    /\ saved evs `prefix_of` List.map (frame_path out_dir) l
    /\ (is_ok r ->
        sampled evs = List.map (frame_request prompt) l
        /\ saved evs = List.map (frame_path out_dir) l).
Proof.
  revert st. induction l as [|f l IH]; intros st; simpl.
  - exists []. rewrite List.app_nil_r. simpl. repeat split; reflexivity.
  - unfold bind.
    destruct (frame_step_cases f st) as [(img & _ & Eok & Et) | (Hno & _ & Et)].
    + rewrite Eok. destruct (IH (state_of (step f st))) as (evs & E & P1 & P2 & Hok).
      eexists (_ ++ evs). rewrite E, Et, <- List.app_assoc.
      split; [reflexivity|].
      rewrite sampled_app, saved_app. simpl.
      repeat split.
      * now apply prefix_cons.
      * now apply prefix_cons.
      * f_equal. now apply Hok.
      * f_equal. now apply Hok.
    + destruct (step f st) as [[] st1 | e st1]; simpl in *; [tauto|].
      eexists. split; [exact Et|]. simpl.
      repeat split; try tauto.
      * apply prefix_cons, prefix_nil.
      * apply prefix_nil.
Qed.

(** The files of a loop that ran to its end: every one is on disk as a
    file, and nothing else in the tree has changed. *)
Lemma frame_loop_files (l : list (Z * Z)) st st' :
  for_each l step st = Ok tt st' ->
  (forall f, List.In f l ->
     exists img, fs st' !! frame_path out_dir f = Some (File img))
  /\ (forall q, ~ List.In q (List.map (frame_path out_dir) l) ->
        fs st' !! q = fs st !! q)
  /\ (forall q img, fs st !! q = Some (File img) ->
        exists img', fs st' !! q = Some (File img')).
Proof.
  revert st. induction l as [|f l IH]; intros st; simpl.
  - intros [= <-]. repeat split; [tauto | eauto].
  - unfold bind.
    destruct (frame_step_cases f st) as [(img & Ew & Eok & _) | (Hno & _)].
    + rewrite Eok. intros Hl. destruct (IH _ Hl) as (I1 & I2 & I3).
      unfold write_file in Ew.
      destruct (parent (frame_path out_dir f)); [|discriminate].
      assert (Ei : fs (state_of (step f st))
                   = <[frame_path out_dir f := File img]> (fs st)).
      { destruct (lookup_node (fs st) p) as [[]|]; try discriminate.
        destruct (fs st !! frame_path out_dir f) as [[]|]; congruence. }
      repeat split.
      * intros g [<- | Hg]; [|now apply I1].
        apply (I3 _ img). rewrite Ei. apply lookup_insert_eq.
      * intros q Hq. rewrite I2 by tauto. rewrite Ei.
        apply lookup_insert_ne. tauto.
      * intros q img0 Hq.
        destruct (decide (q = frame_path out_dir f)) as [->|Hne].
        -- apply (I3 _ img). rewrite Ei. apply lookup_insert_eq.
        -- apply (I3 _ img0). rewrite Ei. now rewrite lookup_insert_ne.
    + destruct (step f st); simpl in *; [tauto | discriminate].
Qed.

End FrameSampler.

(** *** [range], [enumerate] and the default seeds *)

Lemma map_fmap {A B} (f : A -> B) (l : list A) : List.map f l = f <$> l.
Proof. reflexivity. Qed.

Lemma range_length n : length (range n) = Z.to_nat n.
Proof. unfold range. now rewrite List.length_map, List.length_seq. Qed.

Lemma range_lookup n (k : nat) :
  (k < Z.to_nat n)%nat -> range n !! k = Some (Z.of_nat k).
Proof.
  intros Hk. unfold range. rewrite map_fmap, list_lookup_fmap.
  now rewrite lookup_seq_lt.
Qed.

Lemma range_nonneg n i : List.In i (range n) -> 0 <= i < n.
Proof.
  unfold range. rewrite List.in_map_iff. intros (k & <- & Hk).
  apply List.in_seq in Hk. lia.
Qed.

Lemma enumerate_from_lookup {A} (l : list A) i (k : nat) :
  enumerate_from i l !! k = (fun x => (i + Z.of_nat k, x)) <$> l !! k.
Proof.
  revert i k. induction l as [|x l IH]; intros i [|k]; simpl; try reflexivity.
  - now rewrite Z.add_0_r.
  - rewrite IH. destruct (l !! k); simpl; [|reflexivity].
    do 2 f_equal. lia.
Qed.

Lemma enumerate_from_length {A} (l : list A) i :
  length (enumerate_from i l) = length l.
Proof. revert i. induction l; intros; simpl; auto. Qed.

Lemma enumerate_from_snd {A} (l : list A) i :
  List.map snd (enumerate_from i l) = l.
Proof. revert i. induction l; intros; simpl; [|f_equal]; auto. Qed.

Lemma enumerate_from_fst {A} (l : list A) i :
  List.map fst (enumerate_from i l)
  = List.map (fun k => i + Z.of_nat k) (seq 0 (length l)).
Proof.
  revert i. induction l as [|x l IH]; intros i; simpl; [reflexivity|].
  rewrite Z.add_0_r. f_equal. rewrite IH, <- List.seq_shift, List.map_map.
  apply List.map_ext. intros k. lia.
Qed.

Lemma enumerate_range_fst {A} (l : list A) :
  List.map fst (enumerate l) = range (Z.of_nat (length l)).
Proof.
  unfold enumerate, range. rewrite enumerate_from_fst, Nat2Z.id.
  apply List.map_ext. intros k. lia.
Qed.

Lemma default_seeds_length F : length (default_seeds F) = Z.to_nat F.
Proof. unfold default_seeds. now rewrite List.length_map, range_length. Qed.

Lemma default_seeds_lookup F (k : nat) :
  (k < Z.to_nat F)%nat -> default_seeds F !! k = Some (1000 + 7 * Z.of_nat k).
Proof.
  intros Hk. unfold default_seeds.
  rewrite map_fmap, list_lookup_fmap, range_lookup by exact Hk.
  simpl. f_equal. lia.
Qed.

Lemma default_seeds_lookup_inv F (k : nat) s :
  default_seeds F !! k = Some s -> s = 1000 + 7 * Z.of_nat k.
Proof.
  intros E. assert (k < Z.to_nat F)%nat as Hk.
  { rewrite <- default_seeds_length. eapply lookup_lt_Some, E. }
  rewrite default_seeds_lookup in E by exact Hk. congruence.
Qed.

Lemma requests_snd prompt (l : list (Z * Z)) :
  List.map snd (List.map (frame_request prompt) l) = List.map snd l.
Proof. rewrite List.map_map. reflexivity. Qed.

Lemma requests_lookup prompt (l : list Z) (k : nat) q :
  List.map (frame_request prompt) (enumerate l) !! k = Some q ->
  q.1 = prompt ++ frame_suffix ++ str_of_int (Z.of_nat k + 1)
  /\ l !! k = Some q.2.
Proof.
  rewrite map_fmap, list_lookup_fmap. unfold enumerate.
  rewrite enumerate_from_lookup.
  destruct (l !! k) as [s|]; simpl; [|discriminate].
  intros [= <-]. simpl. split; [|reflexivity]. reflexivity.
Qed.

Lemma requests_prefix_snd prompt (l : list Z) (rs : list (str * Z)) :
  rs `prefix_of` List.map (frame_request prompt) (enumerate l) ->
  rs.*2 `prefix_of` l.
Proof.
  intros [k Hk]. exists (k.*2).
  rewrite <- fmap_app, <- Hk, <- !map_fmap, requests_snd.
  symmetry. apply enumerate_from_snd.
Qed.

(** What [make_frames_for_prompt] adds to the trace, with the seeds it has
    settled on. *)
Lemma make_frames_trace pipeline prompt out_dir F w h dev seeds st :
  let l := match seeds with None => default_seeds F | Some l => l end in
  let r := make_frames_for_prompt pipeline prompt out_dir F w h dev seeds st in
  exists evs,
    trace (state_of r) = trace st ++ evs
    /\ sampled evs `prefix_of` List.map (frame_request prompt) (enumerate l)
    /\ saved evs `prefix_of` List.map (frame_path out_dir) (enumerate l)
    /\ (is_ok r ->
        sampled evs = List.map (frame_request prompt) (enumerate l)
        /\ saved evs = List.map (frame_path out_dir) (enumerate l)).
Proof.
  intros l r. subst r. unfold make_frames_for_prompt, bind, fs_op.
  destruct (mkdir_p (fs st) out_dir) as [fs1|]; simpl.
  - fold l.
    destruct (frame_loop_trace pipeline prompt out_dir w h dev (enumerate l)
                {| fs := fs1; trace := trace st |}) as (evs & E & P1 & P2 & Hok).
    exists evs.
    destruct (for_each _ _ _) as [[] st1 | e st1]; simpl in *; auto.
  - exists []. rewrite List.app_nil_r. simpl.
    repeat split; try apply prefix_nil; tauto.
Qed.

(** C4: without a seed list the seed of frame [i] is [1000 + 7 * i]. The
    seeds a call asks the pipeline for are those of [default_seeds F], in
    order: all of them when the call returns, the first ones when it raises.
    They depend on the frame count alone, so two calls with the same frame
    count use the same seeds. *)
Theorem default_seed_per_frame (F : Z) :
  (forall i, 0 <= i < F -> default_seeds F !! Z.to_nat i = Some (1000 + 7 * i))
  /\ (forall pipeline prompt out_dir w h dev st,
        let r := make_frames_for_prompt pipeline prompt out_dir F w h dev None st in
        exists evs,
          trace (state_of r) = trace st ++ evs
          /\ (forall (i : nat) q, sampled evs !! i = Some q ->
                q.2 = 1000 + 7 * Z.of_nat i)
          /\ (sampled evs).*2 `prefix_of` default_seeds F
          /\ (is_ok r -> (sampled evs).*2 = default_seeds F)).
Proof.
  split.
  - intros i Hi. rewrite default_seeds_lookup by lia. f_equal. lia.
  - intros pipeline prompt out_dir w h dev st r.
    destruct (make_frames_trace pipeline prompt out_dir F w h dev None st)
      as (evs & E & P1 & _ & Hok).
    exists evs. split; [exact E|]. repeat split.
    + intros i q Hq.
      eapply prefix_lookup_Some in Hq; [|exact P1].
      apply requests_lookup in Hq as [_ Hs].
      now apply default_seeds_lookup_inv in Hs.
    + eapply requests_prefix_snd, P1.
    + intros Hr. destruct (Hok Hr) as [-> _].
      rewrite <- map_fmap, requests_snd. apply enumerate_from_snd.
Qed.

Lemma default_seed_per_frame_witness :
  default_seeds 3 !! 2%nat = Some 1014
  /\ exists evs,
       trace (state_of (make_frames_for_prompt demo_pipeline (lit "P")
                          WORKING 3 64 64 cpu None fresh)) = [] ++ evs
       /\ (sampled evs).*2 = [1000; 1007; 1014].
Proof.
  split.
  - apply (proj1 (default_seed_per_frame 3) 2). lia.
  - destruct (proj2 (default_seed_per_frame 3) demo_pipeline (lit "P")
                WORKING 64 64 cpu fresh) as (evs & E & _ & _ & Hok).
    exists evs. split; [exact E|]. apply Hok. vm_compute. exact I.
Defined.

(** C9, as the code has it: the prompt of the frame at 0-based index [i] is
    the base prompt, the fixed suffix, and the number [i + 1]: frames are
    numbered from one in the prompt. This holds with and without a seed
    list, and for the frames sampled before a failure as well. *)
Theorem frame_prompt_names_next_index pipeline prompt out_dir F w h dev seeds st :
  let r := make_frames_for_prompt pipeline prompt out_dir F w h dev seeds st in
  exists evs,
    trace (state_of r) = trace st ++ evs
    /\ forall (i : nat) q, sampled evs !! i = Some q ->
         q.1 = prompt ++ frame_suffix ++ str_of_int (Z.of_nat i + 1).
Proof.
  intros r.
  destruct (make_frames_trace pipeline prompt out_dir F w h dev seeds st)
    as (evs & E & P1 & _ & _).
  exists evs. split; [exact E|]. intros i q Hq.
  eapply prefix_lookup_Some in Hq; [|exact P1].
  now apply requests_lookup in Hq as [Hp _].
Qed.

Lemma frame_prompt_names_next_index_witness :
  exists evs,
    trace (state_of (make_frames_for_prompt demo_pipeline (lit "P")
                       WORKING 2 64 64 cpu None fresh)) = [] ++ evs
    /\ (sampled evs).*1 = [lit "P" ++ frame_suffix ++ lit "1";
                           lit "P" ++ frame_suffix ++ lit "2"].
Proof.
  destruct (frame_prompt_names_next_index demo_pipeline (lit "P") WORKING 2
              64 64 cpu None fresh) as (evs & E & Hq).
  exists evs. split; [exact E|].
  simpl in E. subst evs. vm_compute. reflexivity.
Defined.

(** C9 as the specification words it fails: the first frame, at index 0, is
    not asked for with a prompt that ends in the index 0. *)
Lemma frame_prompt_index_counterexample :
  ~ (forall (i : nat) q,
       sampled (trace (state_of (make_frames_for_prompt demo_pipeline (lit "P")
                                   WORKING 1 64 64 cpu None fresh))) !! i = Some q ->
       q.1 = lit "P" ++ frame_suffix ++ str_of_int (Z.of_nat i)).
Proof.
  intros Hall. specialize (Hall 0%nat _ eq_refl). vm_compute in Hall.
  discriminate Hall.
Qed.

(** ** The file system: entries, unlinking, making directories *)

Lemma parent_inv k d :
  parent k = Some d ->
  exists c, parts k = parts d ++ [c] /\ anchored k = anchored d.
Proof.
  unfold parent. destruct (parts k) as [|x ws] eqn:E; [discriminate|].
  intros [= <-]. simpl. exists (List.last (x :: ws) []).
  split; [|reflexivity]. apply List.app_removelast_last. discriminate.
Qed.

Lemma parent_longer k d : parent k = Some d -> length (parts k) = S (length (parts d)).
Proof.
  intros (c & E & _)%parent_inv. rewrite E, List.length_app. simpl. lia.
Qed.

Lemma in_entries fs d k :
  List.In k (entries fs d) <-> is_Some (fs !! k) /\ parent k = Some d.
Proof.
  unfold entries. rewrite List.filter_In, <- list_elem_of_In.
  unfold is_child. rewrite bool_decide_eq_true, list_elem_of_fmap.
  split.
  - intros [([k' x] & -> & Hx) Hp]. apply elem_of_map_to_list in Hx.
    simpl in *. eauto.
  - intros [[x Hx] Hp]. split; [|exact Hp].
    exists (k, x). split; [reflexivity|]. now apply elem_of_map_to_list.
Qed.

Lemma entries_NoDup fs d : NoDup (entries fs d).
Proof.
  unfold entries. apply NoDup_ListNoDup, List.NoDup_filter, NoDup_ListNoDup.
  apply NoDup_fst_map_to_list.
Qed.

Lemma entries_nil fs d :
  (forall k, is_Some (fs !! k) -> parent k <> Some d) -> entries fs d = [].
Proof.
  intros Hno. destruct (entries fs d) as [|k l] eqn:E; [reflexivity|].
  assert (List.In k (entries fs d)) as Hk by (rewrite E; now left).
  apply in_entries in Hk as [Hk Hp]. now apply Hno in Hk.
Qed.

(** Unlinking every path of a list, as the loop of line 118 does: when no
    turn raises, the paths are gone and the rest of the tree is untouched. *)
Lemma unlink_all (l : list Path) st st' :
  for_each l (fun f => fs_op (fun fs => unlink fs f)) st = Ok tt st' ->
  trace st' = trace st
  /\ (forall k, List.In k l -> fs st' !! k = None)
  /\ (forall k, fs st' !! k = None \/ fs st' !! k = fs st !! k)
  /\ (forall k, ~ List.In k l -> fs st' !! k = fs st !! k).
Proof.
  revert st. induction l as [|f l IH]; intros st; simpl.
  - intros [= <-]. repeat split; tauto.
  - unfold bind, fs_op at 1, unlink at 1.
    destruct (fs st !! f) as [[x|]|] eqn:Ef; try discriminate.
    intros Hl. apply IH in Hl as (Ht & Hin & Hany & Hout). simpl in *.
    repeat split; [exact Ht | | | ].
    + intros k [<- | Hk]; [|now apply Hin].
      destruct (Hany f) as [E | E]; [exact E|].
      now rewrite E, lookup_delete_eq.
    + intros k. destruct (Hany k) as [E | E]; [now left|].
      destruct (decide (k = f)) as [->|Hne].
      * left. now rewrite E, lookup_delete_eq.
      * right. now rewrite E, lookup_delete_ne.
    + intros k Hk. rewrite Hout by tauto. apply lookup_delete_ne. tauto.
Qed.

(** Conversely the loop does not raise on a list of files without
    repetition. *)
Lemma unlink_all_files (l : list Path) st :
  NoDup l ->
  (forall k, List.In k l -> exists x, fs st !! k = Some (File x)) ->
  is_ok (for_each l (fun f => fs_op (fun fs => unlink fs f)) st).
Proof.
  intros Hnd. revert st. induction Hnd as [|f l Hf Hnd IH]; intros st Hfiles.
  - exact I.
  - simpl. unfold bind, fs_op at 1, unlink at 1.
    destruct (Hfiles f) as [x ->]; [now left|].
    apply IH. intros k Hk. simpl.
    rewrite lookup_delete_ne.
    + apply Hfiles. now right.
    + intros ->. apply Hf. now apply list_elem_of_In.
Qed.

(** [mkdir_from] only adds directories, at paths that were free and that
    lead from [base] towards the directory asked for. *)
Lemma mkdir_from_lookup anc rest : forall base fs fs',
  mkdir_from anc base rest fs = Some fs' ->
  forall k, fs' !! k = fs !! k
            \/ (fs !! k = None /\ fs' !! k = Some Dir /\ anchored k = anc
                /\ length base < length (parts k) <= length base + length rest)%nat.
Proof.
  induction rest as [|c rest IH]; intros base fs fs'; simpl.
  - intros [= <-] k. now left.
  - set (p := {| anchored := anc; parts := base ++ [c] |}).
    destruct (fs !! p) as [[x|]|] eqn:Ep; try discriminate.
    + intros Hm k. destruct (IH _ _ _ Hm k) as [E | (E1 & E2 & E3 & E4)].
      * now left.
      * right. rewrite List.length_app in E4. simpl in E4.
        repeat split; try assumption; lia.
    + intros Hm k. destruct (IH _ _ _ Hm k) as [E | (E1 & E2 & E3 & E4)].
      * destruct (decide (k = p)) as [->|Hne].
        -- right. rewrite E, lookup_insert_eq. subst p. simpl.
           rewrite List.length_app. simpl. repeat split; auto; lia.
        -- left. now rewrite E, lookup_insert_ne.
      * rewrite List.length_app in E4. simpl in E4.
        destruct (decide (k = p)) as [->|Hne].
        -- now rewrite lookup_insert_eq in E1.
        -- rewrite lookup_insert_ne in E1 by congruence.
           right. repeat split; try assumption; lia.
Qed.

Lemma mkdir_from_is_dir anc rest : forall base fs fs',
  mkdir_from anc base rest fs = Some fs' -> rest <> [] ->
  fs' !! {| anchored := anc; parts := base ++ rest |} = Some Dir.
Proof.
  induction rest as [|c rest IH]; intros base fs fs'; [tauto|]. simpl.
  set (p := {| anchored := anc; parts := base ++ [c] |}).
  intros Hm _.
  assert (Hp : forall fs0, fs0 !! p = Some Dir ->
               mkdir_from anc (base ++ [c]) rest fs0 = Some fs' ->
               fs' !! {| anchored := anc; parts := base ++ c :: rest |} = Some Dir).
  { intros fs0 H0 Hm0. destruct rest as [|c' rest'].
    - simpl in Hm0. now injection Hm0 as <-.
    - replace (base ++ c :: c' :: rest') with ((base ++ [c]) ++ c' :: rest')
        by (now rewrite <- List.app_assoc).
      apply (IH _ _ _ Hm0). discriminate. }
  destruct (fs !! p) as [[x|]|] eqn:Ep; try discriminate.
  - now apply (Hp fs).
  - apply (Hp (<[p := Dir]> fs)); [apply lookup_insert_eq | exact Hm].
Qed.

Lemma mkdir_p_is_dir fs d fs' :
  mkdir_p fs d = Some fs' -> lookup_node fs' d = Some Dir.
Proof.
  unfold mkdir_p, lookup_node. intros Hm.
  destruct (parts d) as [|c ws] eqn:E; [reflexivity|].
  apply mkdir_from_is_dir in Hm; [|discriminate].
  simpl in Hm. rewrite <- E in Hm. now destruct d.
Qed.

Lemma mkdir_p_in_entries fs d fs' k :
  mkdir_p fs d = Some fs' ->
  List.In k (entries fs' d) <-> List.In k (entries fs d).
Proof.
  intros Hm. unfold mkdir_p in Hm. rewrite !in_entries.
  assert (parent k = Some d -> fs' !! k = fs !! k) as Hk.
  { intros Hp. apply parent_longer in Hp.
    destruct (mkdir_from_lookup _ _ _ _ _ Hm k) as [E | (_ & _ & _ & Hl)];
      [exact E | simpl in Hl; lia]. }
  split; intros [Hs Hp]; (split; [|exact Hp]);
    [rewrite <- (Hk Hp) | rewrite (Hk Hp)]; exact Hs.
Qed.

Lemma nil_of_no_member {A} (l : list A) : (forall x, ~ List.In x l) -> l = [].
Proof. destruct l as [|x l]; [reflexivity|]. intros Hn. destruct (Hn x). now left. Qed.

(** ** Clearing a record's working directory *)

Lemma well_formedb_sound fs : well_formedb fs = true -> well_formed fs.
Proof.
  unfold well_formedb. rewrite List.forallb_forall.
  intros Hall k d [x Hx] Hp.
  assert (List.In k (map_to_list fs).*1) as Hk.
  { apply list_elem_of_In, list_elem_of_fmap. exists (k, x).
    split; [reflexivity | now apply elem_of_map_to_list]. }
  apply Hall in Hk. rewrite Hp in Hk.
  now destruct (lookup_node fs d) as [[]|].
Qed.

Lemma reset_frames_dir_spec d st st0 :
  well_formed (fs st) ->
  reset_frames_dir d st = Ok tt st0 ->
  iterdir (fs st0) d = Some [] /\ trace st0 = trace st.
Proof.
  intros Hwf. unfold reset_frames_dir, bind, get_fs.
  destruct (path_exists (fs st) d) eqn:Hex.
  - unfold iterdir at 1.
    destruct (lookup_node (fs st) d) as [[x|]|]; simpl; try discriminate.
    destruct (for_each _ _ st) as [[] st1 | e st1] eqn:Hun; [|discriminate].
    apply unlink_all in Hun as (Ht & Hin & Hany & _).
    unfold fs_op. destruct (mkdir_p (fs st1) d) as [fs2|] eqn:Hm; [|discriminate].
    intros [= <-]. simpl. split; [|exact Ht].
    unfold iterdir. rewrite (mkdir_p_is_dir _ _ _ Hm). f_equal.
    apply nil_of_no_member. intros k Hk.
    apply (mkdir_p_in_entries _ _ _ k Hm) in Hk.
    apply in_entries in Hk as [Hs Hp].
    destruct (Hany k) as [E | E]; [rewrite E in Hs; now destruct Hs|].
    rewrite E in Hs.
    assert (List.In k (entries (fs st) d)) as Hk by now apply in_entries.
    apply Hin in Hk. rewrite Hk in E. rewrite <- E in Hs. now destruct Hs.
  - simpl. unfold fs_op.
    destruct (mkdir_p (fs st) d) as [fs2|] eqn:Hm; [|discriminate].
    intros [= <-]. simpl. split; [|reflexivity].
    unfold iterdir. rewrite (mkdir_p_is_dir _ _ _ Hm). f_equal.
    apply nil_of_no_member. intros k Hk.
    apply (mkdir_p_in_entries _ _ _ k Hm) in Hk.
    apply in_entries in Hk as [Hs Hp].
    unfold path_exists in Hex. now rewrite (Hwf _ _ Hs Hp) in Hex.
Qed.

(** C8: the body of the loop first resets the record's directory and only
    then generates; if the reset raises, nothing is generated for the
    record. After a reset that returned, the directory exists and has no
    entries at all, so no frame of an earlier run is left in it when the
    first new frame is asked for. *)
Theorem frames_dir_cleared `{UnicodeData} (W : World) (args : Args)
    (pipe : Pipeline) (dev : device) (out_base working : Path) (p : planet) st :
  let name := planet_name p in
  let safe := safe_name name in
  let frames_dir := joinpath working safe in
  well_formed (fs st) ->
  process_planet W args pipe dev out_base working p st
  = match reset_frames_dir frames_dir st with
    | Ok _ st0 => generate_and_assemble W args pipe dev out_base name safe
                    (planet_prompt name) frames_dir st0
    | Raise e st' => Raise e st'
    end
  /\ forall st0, reset_frames_dir frames_dir st = Ok tt st0 ->
       iterdir (fs st0) frames_dir = Some [] /\ trace st0 = trace st.
Proof.
  intros name safe frames_dir Hwf. split.
  - reflexivity.
  - intros st0. now apply reset_frames_dir_spec.
Qed.

Lemma frames_dir_cleared_witness :
  let st := {| fs := stale_disk; trace := [] |} in
  let frames_dir := joinpath WORKING (lit "Kepler-10b") in
  length (entries stale_disk frames_dir) = 2%nat
  /\ exists st0, reset_frames_dir frames_dir st = Ok tt st0
                 /\ iterdir (fs st0) frames_dir = Some []
                 /\ length (entries (fs st0) (joinpath WORKING (lit "badname"))) = 1%nat.
Proof.
  intros st frames_dir. split; [vm_compute; reflexivity|].
  assert (is_okb (reset_frames_dir frames_dir st) = true) as Hok
    by (vm_compute; reflexivity).
  assert (length (entries (fs (state_of (reset_frames_dir frames_dir st)))
                    (joinpath WORKING (lit "badname"))) = 1%nat) as Hother
    by (vm_compute; reflexivity).
  assert (well_formed (fs st)) as Hwf
    by (apply well_formedb_sound; vm_compute; reflexivity).
  destruct (reset_frames_dir frames_dir st) as [[] st0 | e st0] eqn:E;
    [|discriminate Hok].
  exists st0. split; [reflexivity|]. split; [|exact Hother].
  pose (args := {| data := []; outdir := []; frames := 2; fps := 12;
                   width := 64; height := 64; model := []; limit := 0 |}).
  pose (W := {| diffusers_installed := true; environ_get := fun _ => None;
                cuda_is_available := false;
                from_pretrained := fun _ _ => None;
                read_json := fun _ => None;
                subprocess_run := fun _ _ => true |}).
  exact (proj1 (proj2 (@frames_dir_cleared ascii_only W args demo_pipeline cpu
                         (Path_of (lit "out")) WORKING kepler st Hwf) st0 E)).
Defined.

(** ** Frame files: count, names and order *)

Lemma range_in n i : List.In i (range n) <-> 0 <= i < n.
Proof.
  split; [apply range_nonneg|]. intros Hi. unfold range.
  apply List.in_map_iff. exists (Z.to_nat i). split; [lia|].
  apply List.in_seq. lia.
Qed.

Lemma range_NoDup n : NoDup (range n).
Proof.
  unfold range. rewrite map_fmap. apply NoDup_fmap_2_strong; [|apply NoDup_seq].
  intros x y _ _. lia.
Qed.

Lemma str_ltb_val a : forall b,
  List.Forall is_digit a -> List.Forall is_digit b -> length a = length b ->
  (str_ltb a b = true <-> (val a < val b)%N).
Proof.
  induction a as [|x a IH]; intros [|y b] Ha Hb Hl; simpl in Hl; try discriminate.
  - simpl. unfold val. simpl. split; [discriminate | lia].
  - inversion Ha as [|? ? Hx Ha']. inversion Hb as [|? ? Hy Hb']. subst.
    injection Hl as Hl.
    pose proof (val_bound a Ha') as Ba. pose proof (val_bound b Hb') as Bb.
    assert (weight a = weight b) as Hw by (unfold weight; now rewrite Hl).
    rewrite !val_cons, Hw in *. simpl.
    unfold is_digit, digit_val in *.
    destruct (N.ltb_spec x y) as [Hxy | Hxy].
    + split; [intros _; nia | reflexivity].
    + destruct (N.eqb_spec x y) as [-> | Hne].
      * rewrite (IH b Ha' Hb' Hl). lia.
      * split; [discriminate | nia].
Qed.

Lemma str_ltb_app_l p a b : str_ltb (p ++ a) (p ++ b) = str_ltb a b.
Proof.
  induction p as [|c p IH]; simpl; [reflexivity|].
  now rewrite N.ltb_irrefl, N.eqb_refl.
Qed.

Lemma str_ltb_app_r t a : forall b, length a = length b ->
  str_ltb (a ++ t) (b ++ t) = str_ltb a b.
Proof.
  induction a as [|x a IH]; intros [|y b] Hl; simpl in Hl; try discriminate.
  - simpl. rewrite <- (app_nil_r t) at 1 2. rewrite str_ltb_app_l. reflexivity.
  - simpl. rewrite IH by congruence. reflexivity.
Qed.

(** A numeral is the single digit zero or starts with another digit. *)
Lemma digits_head n :
  digits n = [48%N]
  \/ exists c s, digits n = c :: s /\ (1 <= digit_val c)%N.
Proof.
  rewrite digits_NilEmpty.
  pose proof (DecimalN.Unsigned.to_of (N.to_uint n)) as Hn.
  rewrite DecimalN.Unsigned.of_to in Hn.
  unfold Decimal.unorm in Hn.
  pose proof (nzhead_nonzero (N.to_uint n)) as Hnz.
  destruct (Decimal.nzhead (N.to_uint n)) as [|d|d|d|d|d|d|d|d|d|d] eqn:E;
    rewrite Hn;
    [ left; reflexivity
    | now destruct (Hnz d)
    | right; eexists _, _; (split; [reflexivity | unfold digit_val; simpl; lia]) .. ].
Qed.

Lemma digits_length n (k : nat) :
  (0 < k)%nat -> (n < 10 ^ N.of_nat k)%N -> (length (digits n) <= k)%nat.
Proof.
  intros Hk Hn. destruct (digits_head n) as [-> | (c & s & E & Hc)]; [simpl; lia|].
  pose proof (val_digits n) as Hv. rewrite E, val_cons in Hv. rewrite E. simpl.
  pose proof (N.mul_le_mono_r 1 (digit_val c) (weight s) Hc) as Hm.
  rewrite N.mul_1_l in Hm.
  assert (weight s <= n)%N as Hle by (rewrite <- Hv; lia).
  pose proof (N.le_lt_trans _ _ _ Hle Hn) as Hw.
  unfold weight in Hw. apply N.pow_lt_mono_r_iff in Hw; [clear - Hw; lia | lia].
Qed.

Lemma format_0d_length w z :
  (0 < w)%nat -> (0 <= z < 10 ^ Z.of_nat w)%Z -> length (format_0d w z) = w.
Proof.
  intros Hw Hz. rewrite format_0d_nonneg by lia.
  assert (length (digits (Z.to_N z)) <= w)%nat as Hl.
  { apply digits_length; [exact Hw|].
    apply N2Z.inj_lt. rewrite N2Z.inj_pow, nat_N_Z.
    change (Z.of_N 10) with 10. rewrite Z2N.id; [apply Hz | lia]. }
  rewrite List.length_app, List.repeat_length. clear - Hl. unfold char in *. lia.
Qed.

Lemma format_0d_digits w z : 0 <= z -> List.Forall is_digit (format_0d w z).
Proof.
  intros Hz. rewrite format_0d_nonneg by exact Hz.
  apply List.Forall_app. split; [|apply digits_are_digits].
  apply List.Forall_forall. intros c Hc. apply List.repeat_spec in Hc.
  subst c. unfold is_digit. lia.
Qed.

(** Up to index 9999 the number takes exactly four characters. *)
Lemma four_digits i : 0 <= i < 10000 -> length (format_0d 4 i) = 4%nat.
Proof. intros Hi. apply format_0d_length; [lia | exact Hi]. Qed.

(** Below ten thousand frames, the order of the names is the order of the
    indices. *)
Lemma frame_file_order i j :
  0 <= i < 10000 -> 0 <= j < 10000 ->
  (str_ltb (frame_file i) (frame_file j) = true <-> i < j).
Proof.
  intros Hi Hj. unfold frame_file.
  rewrite str_ltb_app_l, str_ltb_app_r by (now rewrite !four_digits).
  rewrite str_ltb_val.
  - rewrite !val_format_0d by lia. lia.
  - apply format_0d_digits. lia.
  - apply format_0d_digits. lia.
  - now rewrite !four_digits.
Qed.

Lemma frame_paths_of_range out_dir (l : list Z) :
  List.map (frame_path out_dir) (enumerate l)
  = List.map (fun i => joinpath out_dir (frame_file i)) (range (Z.of_nat (length l))).
Proof.
  rewrite <- enumerate_range_fst, List.map_map. reflexivity.
Qed.

Lemma range_of_to_nat F : range (Z.of_nat (Z.to_nat F)) = range F.
Proof. unfold range. now rewrite Nat2Z.id. Qed.

Lemma frame_paths_NoDup out_dir n :
  NoDup (List.map (fun i => joinpath out_dir (frame_file i)) (range n)).
Proof.
  rewrite map_fmap. apply NoDup_fmap_2_strong; [|apply range_NoDup].
  intros x y Hx%list_elem_of_In%range_in Hy%list_elem_of_In%range_in.
  apply frame_path_inj; lia.
Qed.

(** C5, as the code has it. A call of the frame sampler without a seed list
    that returns has saved exactly [F] files (none for [F <= 0]), named
    [frame_<i>.png] for [i = 0 .. F-1] in this order, no two of them alike,
    all of them files of the output directory; if that directory had no
    entries before, these are all its entries afterwards. The index is
    padded to at least four digits: up to index 9999 it has exactly four, and
    for up to ten thousand frames the order of the names is the order of the
    indices. *)
Theorem frames_written pipeline prompt out_dir F w h dev st st' d :
  make_frames_for_prompt pipeline prompt out_dir F w h dev None st = Ok d st' ->
  exists evs,
    trace st' = trace st ++ evs
    /\ saved evs = List.map (fun i => joinpath out_dir (frame_file i)) (range F)
    /\ length (saved evs) = Z.to_nat F
    /\ NoDup (saved evs)
    /\ (forall p, List.In p (saved evs) ->
          parent p = Some out_dir /\ exists img, fs st' !! p = Some (File img))
    /\ (entries (fs st) out_dir = [] ->
          exists es, iterdir (fs st') out_dir = Some es /\ es ≡ₚ saved evs)
    /\ (forall i, 0 <= i < F -> i < 10000 -> length (format_0d 4 i) = 4%nat)
    /\ (F <= 10000 -> forall i j, 0 <= i < F -> 0 <= j < F ->
          (str_ltb (frame_file i) (frame_file j) = true <-> i < j)).
Proof.
  intros Hrun.
  destruct (make_frames_trace pipeline prompt out_dir F w h dev None st)
    as (evs & E & _ & _ & Hok).
  rewrite Hrun in E, Hok. simpl in E, Hok. destruct (Hok I) as [_ Hsaved].
  rewrite frame_paths_of_range, default_seeds_length, range_of_to_nat in Hsaved.
  unfold make_frames_for_prompt, bind, fs_op in Hrun.
  destruct (mkdir_p (fs st) out_dir) as [fs1|] eqn:Hmk; [|discriminate].
  destruct (for_each _ _ _) as [[] st1 | e st1] eqn:Hloop; [|discriminate].
  injection Hrun as <- <-.
  apply frame_loop_files in Hloop as (Hfiles & Hrest & Hkeep). simpl in Hrest.
  rewrite frame_paths_of_range, default_seeds_length, range_of_to_nat in Hrest.
  assert (Hin : forall p, List.In p (saved evs) ->
            parent p = Some out_dir /\ exists img, fs st1 !! p = Some (File img)).
  { intros p Hp. rewrite Hsaved in Hp.
    apply List.in_map_iff in Hp as (i & <- & Hi). split.
    - apply frame_path_parent.
    - assert (List.In (joinpath out_dir (frame_file i))
                (List.map (frame_path out_dir) (enumerate (default_seeds F)))) as Hf.
      { rewrite frame_paths_of_range, default_seeds_length, range_of_to_nat.
        apply List.in_map_iff. eauto. }
      apply List.in_map_iff in Hf as (f & Ef & Hf).
      rewrite <- Ef. now apply Hfiles. }
  exists evs. split; [exact E|]. split; [exact Hsaved|].
  split; [now rewrite Hsaved, List.length_map, range_length|].
  split; [rewrite Hsaved; apply frame_paths_NoDup|].
  split; [exact Hin|]. split; [|split].
  - intros Hempty. exists (entries (fs st1) out_dir). split.
    + unfold iterdir.
      assert (lookup_node (fs st1) out_dir = Some Dir) as ->; [|reflexivity].
      pose proof (mkdir_p_is_dir _ _ _ Hmk) as Hd. unfold lookup_node in *.
      destruct (parts out_dir) eqn:Ep; [reflexivity|].
      rewrite Hrest; [exact Hd|]. rewrite <- Hsaved. intros Hc.
      apply Hin in Hc as [Hc _]. apply parent_longer in Hc. lia.
    + apply NoDup_Permutation.
      * apply entries_NoDup.
      * rewrite Hsaved. apply frame_paths_NoDup.
      * intros p. rewrite !list_elem_of_In, in_entries. split.
        -- intros [Hs Hp].
           destruct (List.in_dec Path_eq_dec p (saved evs)) as [|Hn]; [assumption|].
           exfalso. rewrite Hsaved in Hn. rewrite (Hrest _ Hn) in Hs.
           assert (List.In p (entries fs1 out_dir)) as Hc by now apply in_entries.
           apply (mkdir_p_in_entries _ _ _ p Hmk) in Hc.
           now rewrite Hempty in Hc.
        -- intros Hp. apply Hin in Hp as [Hp [img Hi]]. split; [eauto | exact Hp].
  - intros i Hi H4. apply four_digits. lia.
  - intros HF i j Hi Hj. apply frame_file_order; lia.
Qed.

Lemma frames_written_witness :
  exists evs,
    trace (state_of (make_frames_for_prompt demo_pipeline (lit "P")
                       (joinpath WORKING (lit "Kepler-10b")) 3 64 64 cpu None fresh))
    = [] ++ evs
    /\ List.map path_name (saved evs)
       = [lit "frame_0000.png"; lit "frame_0001.png"; lit "frame_0002.png"]
    /\ NoDup (saved evs).
Proof.
  set (dir := joinpath WORKING (lit "Kepler-10b")).
  assert (is_okb (make_frames_for_prompt demo_pipeline (lit "P") dir 3 64 64
                    cpu None fresh) = true) as Hok by (vm_compute; reflexivity).
  destruct (make_frames_for_prompt demo_pipeline (lit "P") dir 3 64 64 cpu None fresh)
    as [d st' | e st'] eqn:E; [|discriminate Hok].
  destruct (frames_written _ _ _ _ _ _ _ _ _ _ E)
    as (evs & Et & Hs & _ & Hnd & _).
  exists evs. split; [exact Et|]. split; [|exact Hnd].
  rewrite Hs. vm_compute. reflexivity.
Defined.

(** C5 as the specification words it fails from ten thousand and one frames
    on: the frame of index 10000 gets five digits ([frame_10000.png]), and
    its name sorts before [frame_1001.png]. *)
Lemma frame_names_counterexample :
  ~ (forall F i j, 0 <= i < F -> 0 <= j < F ->
       length (format_0d 4 i) = 4%nat
       /\ (i < j -> str_ltb (frame_file i) (frame_file j) = true)).
Proof.
  intros Hclaim.
  destruct (Hclaim 10001 1001 10000) as [_ Horder]; [lia | lia |].
  assert (str_ltb (frame_file 1001) (frame_file 10000) = false) as Hno
    by (vm_compute; reflexivity).
  rewrite Horder in Hno by lia. discriminate Hno.
Qed.

(** ** The seed list and the frame count *)

(** The files of a call that returned, with or without a seed list: one
    frame file per seed, each a file of the output directory, and all its
    entries if it had none before. *)
Lemma make_frames_files pipeline prompt out_dir F w h dev seeds st st' d :
  let l := match seeds with None => default_seeds F | Some l => l end in
  let paths := List.map (fun i => joinpath out_dir (frame_file i))
                 (range (Z.of_nat (length l))) in
  make_frames_for_prompt pipeline prompt out_dir F w h dev seeds st = Ok d st' ->
  (forall p, List.In p paths ->
     parent p = Some out_dir /\ exists img, fs st' !! p = Some (File img))
  /\ (entries (fs st) out_dir = [] ->
        exists es, iterdir (fs st') out_dir = Some es /\ es ≡ₚ paths).
Proof.
  intros l paths Hrun.
  unfold make_frames_for_prompt, bind, fs_op in Hrun.
  destruct (mkdir_p (fs st) out_dir) as [fs1|] eqn:Hmk; [|discriminate].
  fold l in Hrun.
  destruct (for_each _ _ _) as [[] st1 | e st1] eqn:Hloop; [|discriminate].
  injection Hrun as <- <-.
  apply frame_loop_files in Hloop as (Hfiles & Hrest & Hkeep). simpl in Hrest.
  rewrite frame_paths_of_range in Hrest. fold paths in Hrest.
  assert (Hin : forall p, List.In p paths ->
            parent p = Some out_dir /\ exists img, fs st1 !! p = Some (File img)).
  { intros p Hp. split.
    - unfold paths in Hp. apply List.in_map_iff in Hp as (i & <- & Hi).
      apply frame_path_parent.
    - unfold paths in Hp. rewrite <- frame_paths_of_range in Hp.
      apply List.in_map_iff in Hp as (f & <- & Hf). now apply Hfiles. }
  split; [exact Hin|].
  intros Hempty. exists (entries (fs st1) out_dir). split.
  - unfold iterdir.
    assert (lookup_node (fs st1) out_dir = Some Dir) as ->; [|reflexivity].
    pose proof (mkdir_p_is_dir _ _ _ Hmk) as Hd. unfold lookup_node in *.
    destruct (parts out_dir) eqn:Ep; [reflexivity|].
    rewrite Hrest; [exact Hd|]. intros Hc.
    apply Hin in Hc as [Hc _]. apply parent_longer in Hc. lia.
  - apply NoDup_Permutation.
    + apply entries_NoDup.
    + apply frame_paths_NoDup.
    + intros p. rewrite !list_elem_of_In, in_entries. split.
      * intros [Hs Hp].
        destruct (List.in_dec Path_eq_dec p paths) as [|Hn]; [assumption|].
        exfalso. rewrite (Hrest _ Hn) in Hs.
        assert (List.In p (entries fs1 out_dir)) as Hc by now apply in_entries.
        apply (mkdir_p_in_entries _ _ _ p Hmk) in Hc.
        now rewrite Hempty in Hc.
      * intros Hp. apply Hin in Hp as [Hp [img Hi]]. split; [eauto | exact Hp].
Qed.

(** C10: with a seed list the frame count argument is not looked at: the
    call is the same whatever [num_frames] is, and it asks the pipeline once
    per seed of the list, with that seed. When it returns, the frames it
    has produced are one per seed: it has saved the files [frame_<i>.png]
    for [i] from 0 to the length of the list less one, in this order, no
    two alike, each of them a file of the output directory on the disk it
    leaves, and all the entries of that directory if it had none before.
    Without a seed list it is [num_frames] that sets the count: the files
    are [frame_<i>.png] for [i = 0 .. num_frames-1]. *)
Theorem seed_list_sets_frame_count pipeline prompt out_dir w h dev
    (seeds : list Z) (n n' : Z) st :
  let r := make_frames_for_prompt pipeline prompt out_dir n w h dev (Some seeds) st in
  let r0 := make_frames_for_prompt pipeline prompt out_dir n w h dev None st in
  let frame_files k := List.map (fun i => joinpath out_dir (frame_file i)) (range k) in
  r = make_frames_for_prompt pipeline prompt out_dir n' w h dev (Some seeds) st
  /\ (exists evs,
        trace (state_of r) = trace st ++ evs
        /\ (sampled evs).*2 `prefix_of` seeds
        /\ saved evs `prefix_of` List.map (frame_path out_dir) (enumerate seeds)
        /\ (is_ok r ->
            (sampled evs).*2 = seeds
            /\ saved evs = List.map (frame_path out_dir) (enumerate seeds)
            /\ saved evs = frame_files (Z.of_nat (length seeds))
            /\ length (saved evs) = length seeds
            /\ NoDup (saved evs)
            /\ (forall p, List.In p (saved evs) ->
                  parent p = Some out_dir
                  /\ exists img, fs (state_of r) !! p = Some (File img))
            /\ (entries (fs st) out_dir = [] ->
                  exists es, iterdir (fs (state_of r)) out_dir = Some es
                             /\ es ≡ₚ saved evs)))
  /\ (exists evs,
        trace (state_of r0) = trace st ++ evs
        /\ (is_ok r0 ->
            saved evs = frame_files n
            /\ length (saved evs) = Z.to_nat n
            /\ forall p, List.In p (saved evs) ->
                 parent p = Some out_dir
                 /\ exists img, fs (state_of r0) !! p = Some (File img))).
Proof.
  intros r r0 frame_files. split; [reflexivity|]. split.
  - destruct (make_frames_trace pipeline prompt out_dir n w h dev (Some seeds) st)
      as (evs & E & P1 & P2 & Hok).
    fold r in E, Hok.
    exists evs. split; [exact E|]. split; [eapply requests_prefix_snd, P1|].
    split; [exact P2|].
    intros Hr. destruct (Hok Hr) as [Hsampled Hsaved].
    assert (Hidx : saved evs = frame_files (Z.of_nat (length seeds)))
      by (rewrite Hsaved; apply frame_paths_of_range).
    destruct r as [d st' | e st'] eqn:Er; [|destruct Hr]. unfold r in Er.
    destruct (make_frames_files _ _ _ _ _ _ _ _ _ _ _ Er) as [Hfiles Hall].
    fold (frame_files (Z.of_nat (length seeds))) in Hfiles, Hall.
    rewrite <- Hidx in Hfiles, Hall. simpl state_of.
    split.
    { rewrite Hsampled, <- map_fmap, requests_snd. apply enumerate_from_snd. }
    split; [exact Hsaved|]. split; [exact Hidx|].
    split; [rewrite Hsaved, List.length_map; apply enumerate_from_length|].
    split; [rewrite Hidx; apply frame_paths_NoDup|].
    split; [exact Hfiles | exact Hall].
  - destruct (make_frames_trace pipeline prompt out_dir n w h dev None st)
      as (evs & E & _ & _ & Hok).
    fold r0 in E, Hok.
    exists evs. split; [exact E|].
    intros Hr. destruct (Hok Hr) as [_ Hsaved].
    rewrite frame_paths_of_range, default_seeds_length, range_of_to_nat in Hsaved.
    fold (frame_files n) in Hsaved.
    destruct r0 as [d st' | e st'] eqn:Er; [|destruct Hr]. unfold r0 in Er.
    destruct (make_frames_files _ _ _ _ _ _ _ _ _ _ _ Er) as [Hfiles _].
    simpl in Hfiles.
    rewrite default_seeds_length, range_of_to_nat in Hfiles.
    fold (frame_files n) in Hfiles. rewrite <- Hsaved in Hfiles. simpl state_of.
    split; [exact Hsaved|].
    split; [rewrite Hsaved; unfold frame_files;
            now rewrite List.length_map, range_length|].
    exact Hfiles.
Qed.

Lemma seed_list_sets_frame_count_witness :
  let r := make_frames_for_prompt demo_pipeline (lit "P") WORKING 2 64 64 cpu
             (Some [5; 6; 7]) fresh in
  let r0 := make_frames_for_prompt demo_pipeline (lit "P") WORKING 2 64 64 cpu
              None fresh in
  (exists evs,
     trace (state_of r) = [] ++ evs
     /\ (sampled evs).*2 = [5; 6; 7]
     /\ List.map path_name (saved evs)
        = [lit "frame_0000.png"; lit "frame_0001.png"; lit "frame_0002.png"]
     /\ NoDup (saved evs)
     /\ (forall p, List.In p (saved evs) ->
           exists img, fs (state_of r) !! p = Some (File img))
     /\ exists es, iterdir (fs (state_of r)) WORKING = Some es /\ es ≡ₚ saved evs)
  /\ (exists evs,
        trace (state_of r0) = [] ++ evs
        /\ List.map path_name (saved evs)
           = [lit "frame_0000.png"; lit "frame_0001.png"]).
Proof.
  intros r r0.
  destruct (seed_list_sets_frame_count demo_pipeline (lit "P") WORKING 64 64
              cpu [5; 6; 7] 2 0 fresh)
    as (_ & (evs & E & _ & _ & Hok) & (evs0 & E0 & Hok0)).
  fold r in E, Hok. fold r0 in E0, Hok0.
  assert (Hr : is_ok r) by (vm_compute; exact I).
  assert (Hr0 : is_ok r0) by (vm_compute; exact I).
  destruct (Hok Hr) as (Hs & _ & Hidx & _ & Hnd & Hfiles & Hall).
  destruct (Hok0 Hr0) as (Hidx0 & _ & _).
  split.
  - exists evs. split; [exact E|]. split; [exact Hs|].
    split; [rewrite Hidx; vm_compute; reflexivity|].
    split; [exact Hnd|].
    split; [intros p Hp; now apply Hfiles|].
    apply Hall. reflexivity.
  - exists evs0. split; [exact E0|]. rewrite Hidx0. vm_compute. reflexivity.
Defined.

(** ** What each part of the script adds to the trace *)

Create HintDb emits.
#[local] Hint Resolve emits_ret emits_raise emits_get_trace emits_get_fs
  emits_fs_op : emits.

Ltac emits_step :=
  first [ apply emits_bind; [|intros ?]
        | apply emits_try; [|intros ?]
        | apply emits_for_each; intros ?
        | apply emits_emit
        | solve [auto with emits] ].

Section ScriptTraces.
Context `{UnicodeData} (W : World).

Lemma emits_make_frames pipeline prompt out_dir F w h dev seeds :
  emits is_frame_event
    (make_frames_for_prompt pipeline prompt out_dir F w h dev seeds).
Proof.
  unfold make_frames_for_prompt.
  apply emits_bind; [auto with emits | intros _].
  apply emits_bind; [|auto with emits].
  apply emits_for_each. intros [i s]. unfold frame_step, sample, save.
  repeat emits_step; try exact I.
  destruct (pipeline _ _ _ _ _ _ _); auto with emits.
Qed.

Lemma emits_run (P : event -> Prop) cmd :
  (forall ok, P (EvRun cmd ok)) -> emits P (run W cmd).
Proof.
  intros HP. unfold run.
  apply emits_bind; [auto with emits | intros hist].
  apply emits_bind; [apply emits_emit, HP | intros _].
  destruct (subprocess_run W hist cmd); auto with emits.
Qed.

Lemma emits_reset (P : event -> Prop) d : emits P (reset_frames_dir d).
Proof.
  unfold reset_frames_dir. repeat emits_step.
  destruct (path_exists _ _); [|auto with emits].
  destruct (iterdir _ _); repeat emits_step.
Qed.

Lemma assemble_cmd_not_probe frames_dir out_path fps ok :
  is_record_event (EvRun (assemble_cmd frames_dir out_path fps) ok).
Proof. simpl. unfold ffmpeg_version_cmd, assemble_cmd. intros [=]. Qed.

Lemma emits_process_planet args pipe dev out_base working p :
  emits is_record_event (process_planet W args pipe dev out_base working p).
Proof.
  unfold process_planet, generate_and_assemble, print.
  apply emits_bind; [apply emits_reset | intros _].
  apply emits_bind; [now apply emits_emit | intros _].
  apply emits_bind.
  - apply emits_try.
    + apply emits_bind; [|auto with emits].
      eapply emits_weaken; [|apply emits_make_frames].
      intros []; simpl; tauto.
    + intros _. apply emits_bind; [now apply emits_emit | auto with emits].
  - intros generated. destruct (negb generated); [auto with emits|].
    apply emits_bind; [now apply emits_emit | intros _].
    apply emits_try.
    + apply emits_bind; [|intros _; now apply emits_emit].
      unfold assemble_video. apply emits_run. intros ok.
      apply assemble_cmd_not_probe.
    + intros _. now apply emits_emit.
Qed.

Lemma emits_process_catalog args pipe dev planets :
  emits is_record_event (process_catalog W args pipe dev planets).
Proof.
  unfold process_catalog, print.
  apply emits_bind; [auto with emits | intros _].
  apply emits_bind; [|intros _; now apply emits_emit].
  apply emits_for_each. intros p. apply emits_process_planet.
Qed.

End ScriptTraces.

(** ** The probe for the encoder *)

(** C1, as the code has it. The probe runs after the model and the catalog
    have been loaded (lines 100 to 104). If it fails, the run has asked for
    the model exactly once and then stops with the [RuntimeError] of
    [ensure_ffmpeg]: no frame is sampled or saved, no record is announced,
    and the disk is as it was. *)
Theorem probe_failure_aborts `{UnicodeData} (W : World) (args : Args) (disk : Disk) :
  let r := main W args disk in
  let dev := if cuda_is_available W then cuda else cpu in
  List.In (EvRun ffmpeg_version_cmd false) (trace (state_of r)) ->
  r = Raise (RuntimeError ffmpeg_not_found)
        {| fs := disk;
           trace := [EvPrint (MsgDevice dev); EvPrint MsgLoadingModel;
                     EvLoadModel (model args); EvLoadPlanets (data args);
                     EvRun ffmpeg_version_cmd false] |}
  /\ sampled (trace (state_of r)) = []
  /\ saved (trace (state_of r)) = []
  /\ attempted (trace (state_of r)) = []
  /\ model_loads (trace (state_of r)) = [model args].
Proof.
  intros r dev. subst r. unfold main, generate_videos.
  destruct (diffusers_installed W); [|simpl; tauto].
  destruct (truthy _); [|simpl; tauto].
  cbv beta iota zeta delta [bind print emit load_planets ensure_ffmpeg
    try_except run get_trace raise ret negb].
  destruct (from_pretrained W (model args) _) as [pipe|];
    [|simpl; intuition discriminate].
  destruct (read_json W (data args)) as [planets|];
    [|simpl; intuition discriminate].
  simpl. fold dev.
  destruct (subprocess_run W _ ffmpeg_version_cmd) eqn:Eprobe.
  - intros Hin. exfalso.
    destruct (emits_process_catalog W args pipe dev planets
                {| fs := disk;
                   trace := [EvPrint (MsgDevice dev); EvPrint MsgLoadingModel;
                             EvLoadModel (model args); EvLoadPlanets (data args);
                             EvRun ffmpeg_version_cmd true] |})
      as (evs & E & Hevs).
    rewrite E in Hin. simpl in Hin.
    destruct Hin as [Hin | [Hin | [Hin | [Hin | [Hin | Hin]]]]];
      try discriminate Hin.
    rewrite List.Forall_forall in Hevs. apply Hevs in Hin. now apply Hin.
  - intros _. repeat split; reflexivity.
Qed.

Lemma probe_failure_aborts_witness :
  let r := @main ascii_only (example_world false demo_pipeline true)
             (example_args 0) ∅ in
  model_loads (trace (state_of r)) = [lit "runwayml/stable-diffusion-v1-5"]
  /\ sampled (trace (state_of r)) = []
  /\ attempted (trace (state_of r)) = [].
Proof.
  intros r.
  assert (List.In (EvRun ffmpeg_version_cmd false) (trace (state_of r))) as Hin
    by (vm_compute; tauto).
  destruct (@probe_failure_aborts ascii_only _ _ _ Hin) as (_ & Hs & _ & Ha & Hm).
  repeat split; assumption.
Defined.

(** C1 as the specification words it fails: in a run whose probe fails, the
    model has been asked for. *)
Lemma probe_failure_counterexample :
  let r := @main ascii_only (example_world false demo_pipeline true)
             (example_args 0) ∅ in
  ~ (List.In (EvRun ffmpeg_version_cmd false) (trace (state_of r)) ->
     sampled (trace (state_of r)) = [] /\ model_loads (trace (state_of r)) = []).
Proof.
  intros r Hclaim.
  assert (List.In (EvRun ffmpeg_version_cmd false) (trace (state_of r))) as Hin
    by (vm_compute; tauto).
  assert (model_loads (trace (state_of r)) = [lit "runwayml/stable-diffusion-v1-5"])
    as Hm by (vm_compute; reflexivity).
  destruct (Hclaim Hin) as [_ Hno]. rewrite Hno in Hm. discriminate Hm.
Qed.

(** ** The cap on the number of records *)

(** C2, on the code: [--limit 1] with a catalog of two records. Both records
    are attempted, in file order; the limit is parsed (line 149) and never
    read. *)
Theorem limit_is_ignored :
  let r := @main ascii_only (example_world true demo_pipeline true)
             (example_args 1) ∅ in
  is_ok r
  /\ attempted (trace (state_of r)) = [lit "Kepler-10b"; lit "??bad/name"]
  /\ length (attempted (trace (state_of r)))
     <> Nat.min (length example_catalog) (Z.to_nat (limit (example_args 1))).
Proof. vm_compute. split; [exact I|]. split; [reflexivity | discriminate]. Qed.

(** The limit plays no part in [generate_videos] at all. *)
Lemma generate_videos_limit `{UnicodeData} (W : World) (args : Args) (n : Z) :
  generate_videos W
    {| data := data args; outdir := outdir args; frames := frames args;
       fps := fps args; width := width args; height := height args;
       model := model args; limit := n |}
  = generate_videos W args.
Proof. reflexivity. Qed.

(** ** Failures of one record *)


Lemma commands_frame_events evs :
  List.Forall is_frame_event evs -> commands evs = [].
Proof.
  induction 1 as [|e evs He _ IH]; [reflexivity|].
  destruct e; simpl in *; try tauto; exact IH.
Qed.

Lemma reset_trace `{UnicodeData} d st :
  trace (state_of (reset_frames_dir d st)) = trace st.
Proof.
  destruct (emits_reset (fun _ => False) d st) as (evs & E & Hevs).
  destruct evs as [|e evs]; [now rewrite List.app_nil_r in E|].
  now inversion Hevs.
Qed.


(** The whole run with that pipeline: the first record fails at its first
    frame, the second is attempted all the same and is the only one the
    encoder is called for. *)
Example run_with_failing_first_record :
  let r := @main ascii_only (example_world true flaky_pipeline true)
             (example_args 0) ∅ in
  is_okb r = true
  /\ attempted (trace (state_of r)) = [lit "Kepler-10b"; lit "??bad/name"]
  /\ List.map (fun cmd => List.last cmd []) (commands (trace (state_of r)))
     = [lit "-version"; lit "public/images/badname.mp4"].
Proof. vm_compute. repeat split; reflexivity. Qed.

(** With an encoder that fails every time, both records are still attempted
    and the run ends normally. *)
Example run_with_failing_encoder :
  let r := @main ascii_only (example_world true demo_pipeline false)
             (example_args 0) ∅ in
  is_okb r = true
  /\ attempted (trace (state_of r)) = [lit "Kepler-10b"; lit "??bad/name"]
  /\ List.map path_name (saved (trace (state_of r)))
     = [lit "frame_0000.png"; lit "frame_0001.png";
        lit "frame_0000.png"; lit "frame_0001.png"].
Proof. vm_compute. repeat split; reflexivity. Qed.

(** ** The whole catalog *)

Lemma WORKING_eq : WORKING = mkPath false [lit ".cache_video_frames"].
Proof. reflexivity. Qed.

Lemma parent_WORKING : parent WORKING = Some (mkPath false []).
Proof. reflexivity. Qed.

Lemma parent_neq k d : parent k = Some d -> k <> d.
Proof. intros Hp ->. apply parent_longer in Hp. lia. Qed.

Lemma parent_parent_neq k d e : parent k = Some d -> parent d = Some e -> k <> e.
Proof.
  intros Hk Hd ->. apply parent_longer in Hk, Hd. lia.
Qed.

Lemma lookup_node_child (fs : Disk) k d : parent k = Some d -> lookup_node fs k = fs !! k.
Proof.
  intros Hp. unfold lookup_node. apply parent_inv in Hp as (c & E & _).
  rewrite E. now destruct (parts d).
Qed.

Lemma tidy_sub (fs fs' : Disk) :
  tidy fs -> (forall k, fs' !! k = None \/ fs' !! k = fs !! k) ->
  fs' !! WORKING = Some Dir -> tidy fs'.
Proof.
  intros (T1 & T2 & T3) Hsub Hw. split; [exact Hw|]. split.
  - intros k Hp Hs. destruct (Hsub k) as [E | E]; rewrite E in *.
    + now destruct Hs.
    + now apply T2.
  - intros k d Hp Hd Hs. destruct (Hsub k) as [E | E]; rewrite E in *.
    + now destruct Hs.
    + now apply (T3 k d).
Qed.

Lemma tidy_insert_dir (fs : Disk) d :
  tidy fs -> parent d = Some WORKING -> tidy (<[d := Dir]> fs).
Proof.
  intros (T1 & T2 & T3) Hd. split; [|split].
  - rewrite lookup_insert_ne; [exact T1 | now apply parent_neq].
  - intros k Hp Hs. destruct (decide (k = d)) as [-> | Hne].
    + apply lookup_insert_eq.
    + rewrite lookup_insert_ne in * by congruence. now apply T2.
  - intros k e Hp He Hs. rewrite lookup_insert_ne in *.
    + now apply (T3 k e).
    + intros ->. rewrite Hd in Hp. injection Hp as <-.
      now rewrite parent_WORKING in He.
    + intros ->. rewrite Hd in Hp. injection Hp as <-.
      now rewrite parent_WORKING in He.
Qed.

Lemma tidy_insert_file (fs : Disk) k d x :
  tidy fs -> parent k = Some d -> parent d = Some WORKING ->
  tidy (<[k := File x]> fs).
Proof.
  intros (T1 & T2 & T3) Hk Hd. split; [|split].
  - rewrite lookup_insert_ne; [exact T1|]. intros ->.
    now apply (parent_parent_neq _ _ _ Hk Hd).
  - intros k' Hp Hs. rewrite lookup_insert_ne in *.
    + now apply T2.
    + intros ->. rewrite Hk in Hp. injection Hp as ->. now apply parent_neq in Hd.
    + intros ->. rewrite Hk in Hp. injection Hp as ->. now apply parent_neq in Hd.
  - intros k' e Hp He Hs. destruct (decide (k' = k)) as [-> | Hne].
    + exists x. apply lookup_insert_eq.
    + rewrite lookup_insert_ne in * by congruence. now apply (T3 k' e).
Qed.

(** Making a directory directly below the working directory. *)
Lemma mkdir_p_below_working (fs : Disk) d :
  fs !! WORKING = Some Dir -> parent d = Some WORKING ->
  mkdir_p fs d = match fs !! d with
                 | Some Dir => Some fs
                 | Some (File _) => None
                 | None => Some (<[d := Dir]> fs)
                 end.
Proof.
  intros Hw Hd. apply parent_inv in Hd as (c & E & Ea).
  rewrite WORKING_eq in *.
  destruct d as [a ws]. cbn [anchored parts app] in *. subst a ws.
  unfold mkdir_p. cbn [mkdir_from anchored parts app]. rewrite Hw.
  now destruct (fs !! _) as [[]|].
Qed.

(** Under [tidy], resetting a record's directory never raises. *)
Lemma reset_tidy d st :
  tidy (fs st) -> parent d = Some WORKING ->
  exists st', reset_frames_dir d st = Ok tt st'
              /\ tidy (fs st') /\ fs st' !! d = Some Dir /\ trace st' = trace st.
Proof.
  intros Ht Hd. pose proof Ht as (T1 & T2 & T3).
  unfold reset_frames_dir, bind, get_fs, path_exists, iterdir.
  rewrite (lookup_node_child _ _ _ Hd).
  destruct (fs st !! d) as [n|] eqn:Ed.
  - assert (T2d : fs st !! d = Some Dir)
      by (apply T2; [exact Hd | rewrite Ed; eauto]).
    rewrite T2d in Ed. injection Ed as <-.
    pose proof (unlink_all_files (entries (fs st) d) st (entries_NoDup _ _)) as Hok.
    destruct (for_each _ _ st) as [[] st1 | e st1] eqn:Hun.
    + apply unlink_all in Hun as (Htr & _ & Hany & Hout).
      assert (Hw1 : fs st1 !! WORKING = Some Dir).
      { rewrite Hout; [exact T1|]. intros Hin%in_entries.
        destruct Hin as [_ Hp]. now apply (parent_parent_neq _ _ _ Hp Hd). }
      assert (Hd1 : fs st1 !! d = Some Dir).
      { rewrite Hout; [exact T2d|]. intros Hin%in_entries.
        destruct Hin as [_ Hp]. now apply parent_neq in Hp. }
      unfold fs_op. rewrite (mkdir_p_below_working _ _ Hw1 Hd), Hd1.
      eexists. split; [reflexivity|]. simpl.
      split; [now apply (tidy_sub (fs st)) | auto].
    + exfalso. apply Hok. intros k Hk%in_entries. destruct Hk as [Hs Hp].
      now apply (T3 k d).
  - unfold ret at 1. unfold fs_op.
    rewrite (mkdir_p_below_working _ _ T1 Hd), Ed.
    eexists. split; [reflexivity|]. simpl.
    split; [now apply tidy_insert_dir|]. split; [apply lookup_insert_eq | reflexivity].
Qed.

(** Under [tidy], the frame loop keeps the tree tidy however it ends. *)
Lemma frame_loop_tidy pipeline prompt d w h dev (l : list (Z * Z)) : forall st,
  tidy (fs st) -> fs st !! d = Some Dir -> parent d = Some WORKING ->
  let r := for_each l (frame_step pipeline prompt d w h dev) st in
  tidy (fs (state_of r)) /\ fs (state_of r) !! d = Some Dir.
Proof.
  induction l as [|f l IH]; intros st Ht Hdir Hd; simpl; [auto|].
  unfold bind.
  destruct (frame_step_cases pipeline prompt d w h dev f st)
    as [(img & Ew & Eok & _) | (Hno & Efs & _)].
  - rewrite Eok. unfold write_file in Ew.
    pose proof (frame_path_parent d f.1) as Hp. fold (frame_path d f) in Hp.
    rewrite Hp in Ew.
    assert (Ei : fs (state_of (frame_step pipeline prompt d w h dev f st))
                 = <[frame_path d f := File img]> (fs st)).
    { destruct (lookup_node (fs st) d) as [[]|]; try discriminate.
      destruct (fs st !! frame_path d f) as [[]|]; congruence. }
    apply IH; [| |exact Hd].
    + rewrite Ei. now apply (tidy_insert_file _ _ d).
    + rewrite Ei, lookup_insert_ne; [exact Hdir | now apply parent_neq].
  - destruct (frame_step _ _ _ _ _ _ f st) as [[] st1 | e st1]; simpl in *;
      [tauto|]. now rewrite Efs.
Qed.

Lemma make_frames_tidy pipeline prompt d F w h dev seeds st :
  tidy (fs st) -> fs st !! d = Some Dir -> parent d = Some WORKING ->
  let r := make_frames_for_prompt pipeline prompt d F w h dev seeds st in
  tidy (fs (state_of r)).
Proof.
  intros Ht Hdir Hd. pose proof Ht as (T1 & _).
  unfold make_frames_for_prompt, bind, fs_op.
  rewrite (mkdir_p_below_working _ _ T1 Hd), Hdir.
  match goal with
  | |- context [for_each ?l ?step ?s] =>
      destruct (frame_loop_tidy pipeline prompt d w h dev l s Ht Hdir Hd) as [Hr _];
      destruct (for_each l step s) as [[] st1 | e st1]; exact Hr
  end.
Qed.

Lemma attempted_app a b : attempted (a ++ b) = attempted a ++ attempted b.
Proof. unfold attempted. apply List.flat_map_app. Qed.

Lemma attempted_frame_events evs :
  List.Forall is_frame_event evs -> attempted evs = [].
Proof.
  induction 1 as [|e evs He _ IH]; [reflexivity|].
  destruct e; simpl in *; try tauto; exact IH.
Qed.

Section Catalog.
Context `{UnicodeData} (W : World).

Lemma kept_not_SLASH : kept SLASH = false.
Proof. reflexivity. Qed.

Lemma kept_not_dot : kept 46%N = false.
Proof. reflexivity. Qed.

(** A sanitised name that is not empty is one path component. *)
Lemma safe_name_simple name :
  safe_name name <> lit "." /\ ~ List.In SLASH (safe_name name).
Proof.
  pose proof (safe_name_kept name) as Hk. rewrite List.Forall_forall in Hk.
  split.
  - intros E. specialize (Hk 46%N). rewrite E in Hk.
    rewrite kept_not_dot in Hk. discriminate Hk. now left.
  - intros Hin. apply Hk in Hin. rewrite kept_not_SLASH in Hin. discriminate Hin.
Qed.

Lemma frames_dir_parent name :
  safe_name name <> [] -> parent (joinpath WORKING (safe_name name)) = Some WORKING.
Proof.
  intros Hne. destruct (safe_name_simple name) as [Hdot Hs].
  rewrite joinpath_simple by assumption. rewrite WORKING_eq.
  cbn [anchored parts]. apply (parent_snoc false [_]).
Qed.

(** Under [tidy], the body of the loop returns for a record with a name
    that does not sanitise to nothing, whatever the pipeline and the encoder
    do; the record is announced, and the tree stays tidy. *)
Lemma process_planet_tidy args pipe dev out_base p st :
  tidy (fs st) -> safe_name (planet_name p) <> [] ->
  exists st', process_planet W args pipe dev out_base WORKING p st = Ok tt st'
              /\ tidy (fs st')
              /\ attempted (trace st') = attempted (trace st) ++ [planet_name p].
Proof.
  intros Ht Hne. set (name := planet_name p) in *.
  set (d := joinpath WORKING (safe_name name)).
  assert (Hd : parent d = Some WORKING) by now apply frames_dir_parent.
  destruct (reset_tidy d st Ht Hd) as (st0 & Hreset & Ht0 & Hdir & Htr).
  unfold process_planet. fold name d. unfold bind at 1. rewrite Hreset.
  set (s1 := {| fs := fs st0;
                trace := trace st0 ++ [EvPrint (MsgGenerating name d)] |}).
  pose proof (make_frames_tidy pipe (planet_prompt name) d (frames args)
                (width args) (height args) dev None s1 Ht0 Hdir Hd) as Ht1.
  destruct (emits_make_frames pipe (planet_prompt name) d (frames args)
              (width args) (height args) dev None s1) as (evs & E & Hevs).
  apply attempted_frame_events in Hevs.
  cbv beta iota zeta delta [generate_and_assemble bind print emit try_except
    ret assemble_video run get_trace raise negb].
  fold s1.
  destruct (make_frames_for_prompt pipe (planet_prompt name) d (frames args)
              (width args) (height args) dev None s1) as [d' st1 | e st1];
    simpl in Ht1, E.
  - destruct (subprocess_run W _ _); eexists; (split; [reflexivity|]);
      simpl; (split; [exact Ht1|]);
      rewrite !attempted_app, E, !attempted_app, Hevs, Htr; simpl;
      now rewrite !List.app_nil_r.
  - eexists. split; [reflexivity|]. simpl. split; [exact Ht1|].
    rewrite !attempted_app, E, !attempted_app, Hevs, Htr. simpl.
    now rewrite !List.app_nil_r.
Qed.

Lemma for_each_planets_tidy args pipe dev out_base (planets : list planet) :
  forall st,
  tidy (fs st) ->
  List.Forall (fun p => safe_name (planet_name p) <> []) planets ->
  exists st', for_each planets (process_planet W args pipe dev out_base WORKING) st
              = Ok tt st'
              /\ tidy (fs st')
              /\ attempted (trace st')
                 = attempted (trace st) ++ List.map planet_name planets.
Proof.
  induction planets as [|p planets IH]; intros st Ht Hall.
  - exists st. simpl. rewrite List.app_nil_r. auto.
  - inversion Hall as [|? ? Hp Hrest]; subst.
    destruct (process_planet_tidy args pipe dev out_base p st Ht Hp)
      as (st1 & E1 & Ht1 & Ha1).
    destruct (IH st1 Ht1 Hrest) as (st2 & E2 & Ht2 & Ha2).
    exists st2. simpl. unfold bind. rewrite E1.
    split; [exact E2|]. split; [exact Ht2|].
    rewrite Ha2, Ha1, <- List.app_assoc. reflexivity.
Qed.

Lemma tidy_after_mkdir (disk : Disk) :
  disk = ∅ \/ tidy disk ->
  exists fs1, mkdir_p disk WORKING = Some fs1 /\ tidy fs1.
Proof.
  intros [-> | Ht].
  - exists {[ WORKING := Dir ]}. split; [reflexivity|]. split; [|split].
    + apply lookup_singleton_eq.
    + intros k Hp [x Hx]. apply lookup_singleton_Some in Hx as [<- _].
      now apply parent_neq in Hp.
    + intros k d Hp Hd [x Hx]. apply lookup_singleton_Some in Hx as [<- _].
      now apply (parent_parent_neq _ _ _ Hp) in Hd.
  - exists disk. split; [|exact Ht]. destruct Ht as (T1 & _).
    unfold mkdir_p. rewrite WORKING_eq in *. cbn [mkdir_from anchored parts app].
    now rewrite T1.
Qed.

(** X17. When everything the run needs is there (library, token, model, catalog,
    encoder) and the working directory is tidy or the disk is empty, the run
    ends normally having announced every record of the catalog, in file
    order, whichever frame generations and encodings fail on the way. The
    [limit] of the arguments does not occur. *)
Theorem every_record_attempted args (disk : Disk) pipe planets :
  let dev := if cuda_is_available W then cuda else cpu in
  diffusers_installed W = true ->
  truthy (py_or (environ_get W (lit "HUGGINGFACE_TOKEN"))
                (environ_get W (lit "HF_TOKEN"))) = true ->
  from_pretrained W (model args) dev = Some pipe ->
  read_json W (data args) = Some planets ->
  subprocess_run W [EvPrint (MsgDevice dev); EvPrint MsgLoadingModel;
                    EvLoadModel (model args); EvLoadPlanets (data args)]
                 ffmpeg_version_cmd = true ->
  disk = ∅ \/ tidy disk ->
  List.Forall (fun p => safe_name (planet_name p) <> []) planets ->
  exists st', main W args disk = Ok tt st'
              /\ attempted (trace st') = List.map planet_name planets.
Proof.
  intros dev Hlib Htok Hmodel Hjson Hprobe Hdisk Hnames.
  unfold main, generate_videos. rewrite Hlib, Htok.
  cbv beta iota zeta delta [bind print emit load_planets ensure_ffmpeg
    try_except run get_trace raise ret negb].
  fold dev. rewrite Hmodel, Hjson. simpl. rewrite Hprobe.
  destruct (tidy_after_mkdir disk Hdisk) as (fs1 & Hmk & Ht1).
  unfold process_catalog, bind at 1, fs_op. simpl fs. rewrite Hmk.
  destruct (for_each_planets_tidy args pipe dev (Path_of (outdir args)) planets
              {| fs := fs1;
                 trace := [EvPrint (MsgDevice dev); EvPrint MsgLoadingModel;
                           EvLoadModel (model args); EvLoadPlanets (data args);
                           EvRun ffmpeg_version_cmd true] |} Ht1 Hnames)
    as (st1 & E1 & _ & Ha1).
  unfold bind at 1. simpl trace. rewrite E1.
  eexists. split; [reflexivity|]. simpl. rewrite attempted_app, Ha1. simpl.
  now rewrite List.app_nil_r.
Qed.

End Catalog.

(** The catalog of the example with a pipeline that fails once and an
    encoder that fails every time. *)
Example every_record_attempted_example :
  exists st',
    @main ascii_only (example_world true flaky_pipeline false) (example_args 1) ∅
    = Ok tt st'
    /\ attempted (trace st') = [lit "Kepler-10b"; lit "??bad/name"].
Proof.
  apply (@every_record_attempted ascii_only
           (example_world true flaky_pipeline false) (example_args 1) ∅
           flaky_pipeline example_catalog); try reflexivity.
  - now left.
  - repeat constructor; vm_compute; discriminate.
Defined.

(** ** Failures of one record and the rest of the catalog *)






(** ** How a run begins *)

(** The six ways a run can go: four failures before the probe, a failed
    probe, or the loop over the catalog after the preamble. *)
Lemma main_cases `{UnicodeData} (W : World) (args : Args) (disk : Disk) :
  let r := main W args disk in
  let at_start evs := {| fs := disk; trace := evs |} in
  (diffusers_installed W = false
   /\ r = Raise (RuntimeError diffusers_missing) (at_start []))
  \/ (diffusers_installed W = true /\ has_token W = false
      /\ r = Raise (RuntimeError token_missing) (at_start []))
  \/ (diffusers_installed W = true /\ has_token W = true
      /\ ((from_pretrained W (model args) (chosen_device W) = None
           /\ r = Raise LibraryError
                    (at_start (firstn 3 (preamble W args true))))
          \/ exists pipe,
               from_pretrained W (model args) (chosen_device W) = Some pipe
               /\ ((read_json W (data args) = None
                    /\ r = Raise OSError
                             (at_start (firstn 4 (preamble W args true))))
                   \/ exists planets,
                        read_json W (data args) = Some planets
                        /\ ((subprocess_run W (firstn 4 (preamble W args true))
                               ffmpeg_version_cmd = false
                             /\ r = Raise (RuntimeError ffmpeg_not_found)
                                      (at_start (preamble W args false)))
                            \/ (subprocess_run W (firstn 4 (preamble W args true))
                                  ffmpeg_version_cmd = true
                                /\ r = process_catalog W args pipe (chosen_device W)
                                         planets (at_start (preamble W args true))))))).
Proof.
  intros r at_start. subst r. unfold main, generate_videos, has_token.
  destruct (diffusers_installed W); [|left; auto].
  right. destruct (truthy _); [|left; auto].
  right. split; [reflexivity|]. split; [reflexivity|].
  cbv beta iota zeta delta [bind print emit load_planets ensure_ffmpeg
    try_except run get_trace raise ret negb].
  fold (chosen_device W).
  destruct (from_pretrained W (model args) _) as [pipe|]; [|left; auto].
  right. exists pipe. split; [reflexivity|].
  destruct (read_json W (data args)) as [planets|]; [|left; auto].
  right. exists planets. split; [reflexivity|]. simpl.
  destruct (subprocess_run W _ ffmpeg_version_cmd); [right | left]; auto.
Qed.

(** ** Every event of the loop belongs to a record *)

Lemma emits_for_each_in {A} (P : event -> Prop) (xs : list A) (body : A -> M unit) :
  (forall x, List.In x xs -> emits P (body x)) -> emits P (for_each xs body).
Proof.
  induction xs as [|x xs IH]; intros Hb; simpl.
  - apply emits_ret.
  - apply emits_bind; [apply Hb; now left | intros _].
    apply IH. intros y Hy. apply Hb. now right.
Qed.

Lemma enumerate_default_seeds F i s :
  List.In (i, s) (enumerate (default_seeds F)) -> 0 <= i < F /\ s = 1000 + i * 7.
Proof.
  intros Hin. apply list_elem_of_In, list_elem_of_lookup in Hin as [k Hk].
  unfold enumerate in Hk. rewrite enumerate_from_lookup in Hk.
  destruct (default_seeds F !! k) as [s'|] eqn:Es; [|discriminate].
  injection Hk as <- <-.
  assert (k < Z.to_nat F)%nat as Hlt.
  { rewrite <- default_seeds_length. eapply lookup_lt_Some, Es. }
  apply default_seeds_lookup_inv in Es. lia.
Qed.

Section RecordEvents.
Context `{UnicodeData} (W : World) (args : Args).

Lemma emits_process_planet_of pipe p :
  emits (event_of_record W args p)
    (process_planet W args pipe (chosen_device W) (Path_of (outdir args)) WORKING p).
Proof.
  unfold process_planet, generate_and_assemble, print.
  apply emits_bind; [apply emits_reset | intros _].
  apply emits_bind; [now apply emits_emit | intros _].
  apply emits_bind.
  - apply emits_try.
    + apply emits_bind; [|intros; apply emits_ret].
      unfold make_frames_for_prompt.
      apply emits_bind; [apply emits_fs_op | intros _].
      apply emits_bind; [|intros; apply emits_ret].
      apply emits_for_each_in. intros [i s] Hin.
      apply enumerate_default_seeds in Hin as [Hi ->].
      unfold frame_step, sample, save.
      apply emits_bind; [|intros img].
      * apply emits_bind; [apply emits_get_trace | intros hist].
        apply emits_bind.
        -- apply emits_emit. exists i. repeat split; auto; lia.
        -- intros _. destruct (pipe _ _ _ _ _ _ _);
             [apply emits_ret | apply emits_raise].
      * apply emits_bind; [apply emits_fs_op | intros _].
        apply emits_emit. exists i. split; [lia | reflexivity].
    + intros _. apply emits_bind; [now apply emits_emit | intros; apply emits_ret].
  - intros generated. destruct (negb generated); [apply emits_ret|].
    apply emits_bind; [now apply emits_emit | intros _].
    apply emits_try.
    + apply emits_bind; [|intros _; now apply emits_emit].
      unfold assemble_video. apply emits_run. intros ok. reflexivity.
    + intros _. now apply emits_emit.
Qed.

Lemma emits_process_catalog_of pipe planets :
  emits (event_of_catalog W args planets)
    (process_catalog W args pipe (chosen_device W) planets).
Proof.
  unfold process_catalog, print.
  apply emits_bind; [apply emits_fs_op | intros _].
  apply emits_bind; [|intros _; apply emits_emit; left; eauto].
  apply emits_for_each_in. intros p Hp.
  eapply emits_weaken; [|apply emits_process_planet_of].
  intros e He. right. eauto.
Qed.

(** The events of a whole run: the preamble, or a part of it when the run
    stops early, and then events of the catalog's records. *)
Lemma main_trace disk :
  let r := main W args disk in
  trace (state_of r) = []
  \/ trace (state_of r) = firstn 3 (preamble W args true)
  \/ trace (state_of r) = firstn 4 (preamble W args true)
  \/ trace (state_of r) = preamble W args false
  \/ exists planets evs,
       read_json W (data args) = Some planets
       /\ trace (state_of r) = preamble W args true ++ evs
       /\ List.Forall (event_of_catalog W args planets) evs.
Proof.
  intros r. subst r.
  destruct (main_cases W args disk)
    as [[_ ->] | [(_ & _ & ->) | (_ & _ & [[_ ->] | (pipe & _ & [[_ ->] |
         (planets & Hj & [[_ ->] | [_ ->]])])])]]; simpl; auto.
  do 4 right. exists planets.
  destruct (emits_process_catalog_of pipe planets
              {| fs := disk; trace := preamble W args true |}) as (evs & E & Hevs).
  exists evs. auto.
Qed.

End RecordEvents.

Section RunTheorems.
Context `{UnicodeData} (W : World) (args : Args).

Lemma main_event disk e :
  List.In e (trace (state_of (main W args disk))) ->
  List.In e (preamble W args true)
  \/ e = EvRun ffmpeg_version_cmd false
  \/ exists planets, read_json W (data args) = Some planets
                     /\ event_of_catalog W args planets e.
Proof.
  destruct (main_trace W args disk)
    as [-> | [-> | [-> | [-> | (planets & evs & Hj & -> & Hevs)]]]].
  - intros [].
  - intros Hin. left. simpl in *. tauto.
  - intros Hin. left. simpl in *. tauto.
  - intros Hin. simpl in Hin. simpl.
    destruct Hin as [Hin | [Hin | [Hin | [Hin | [Hin | []]]]]]; auto 6.
  - rewrite List.in_app_iff. intros [Hin | Hin]; [now left|].
    right. right. exists planets. split; [exact Hj|].
    rewrite List.Forall_forall in Hevs. now apply Hevs.
Qed.

(** X5. Every request to the pipeline in a run is for a frame of a record of
    the catalog: the prompt is that record's prompt with the suffix and the
    frame number, the seed is that of the frame, and the sizes, the twenty
    steps and the device are the same for all. *)
Theorem every_request_is_a_frame disk prompt w h steps d seed :
  List.In (EvSample prompt w h steps d seed) (trace (state_of (main W args disk))) ->
  exists planets p i,
    read_json W (data args) = Some planets /\ List.In p planets
    /\ 0 <= i < frames args
    /\ prompt = planet_prompt (planet_name p) ++ frame_suffix ++ str_of_int (i + 1)
    /\ seed = 1000 + i * 7
    /\ w = width args /\ h = height args /\ steps = 20 /\ d = chosen_device W.
Proof.
  intros Hin. apply main_event in Hin as [Hin | [Hin | (planets & Hj & Hin)]].
  - simpl in Hin. intuition discriminate.
  - discriminate Hin.
  - destruct Hin as [[m Hm] | (p & Hp & i & Hi)]; [discriminate Hm|].
    exists planets, p, i. tauto.
Qed.

(** X4. The only commands a run hands to [subprocess.run] are the probe and,
    for records of the catalog, the encoder command of lines 80 to 83 on
    the record's frames directory and video. *)
Theorem every_command_is_known disk cmd ok :
  List.In (EvRun cmd ok) (trace (state_of (main W args disk))) ->
  cmd = ffmpeg_version_cmd
  \/ exists planets p,
       read_json W (data args) = Some planets /\ List.In p planets
       /\ cmd = assemble_cmd (frames_dir_of p) (video_of args p) (fps args).
Proof.
  intros Hin. apply main_event in Hin as [Hin | [Hin | (planets & Hj & Hin)]].
  - left. simpl in Hin.
    destruct Hin as [Hin | [Hin | [Hin | [Hin | [Hin | []]]]]];
      try discriminate Hin. now injection Hin as <- _.
  - left. now injection Hin as <- _.
  - destruct Hin as [[m Hm] | (p & Hp & He)]; [discriminate Hm|].
    right. exists planets, p. auto.
Qed.

(** X3. A run asks for the model at most once and reads the catalog at most
    once, however many records there are. *)
Theorem model_loaded_at_most_once disk :
  let tr := trace (state_of (main W args disk)) in
  (model_loads tr = [] \/ model_loads tr = [model args])
  /\ (catalog_reads tr = [] \/ catalog_reads tr = [data args]).
Proof.
  intros tr. subst tr.
  destruct (main_trace W args disk)
    as [-> | [-> | [-> | [-> | (planets & evs & Hj & -> & Hevs)]]]];
    try (simpl; auto; fail).
  assert (model_loads evs = [] /\ catalog_reads evs = []) as [Hm Hc].
  { clear - Hevs. induction Hevs as [|e evs He _ [IH1 IH2]]; [auto|].
    destruct He as [[m ->] | (p & _ & He)]; [auto|].
    destruct e; simpl in *; try tauto. }
  unfold model_loads, catalog_reads in *.
  rewrite !List.flat_map_app, Hm, Hc. simpl. auto.
Qed.

End RunTheorems.


(** ** Which paths a computation can change *)

Section Touches.
Context (P : Path -> Prop).

Lemma touches_ret {A} (a : A) : touches P (ret a).
Proof. intros st k _. reflexivity. Qed.

Lemma touches_raise {A} e : touches P (@raise A e).
Proof. intros st k _. reflexivity. Qed.

Lemma touches_emit e : touches P (emit e).
Proof. intros st k _. reflexivity. Qed.

Lemma touches_get_trace : touches P get_trace.
Proof. intros st k _. reflexivity. Qed.

Lemma touches_fs_op op :
  (forall fs fs' k, op fs = Some fs' -> ~ P k -> fs' !! k = fs !! k) ->
  touches P (fs_op op).
Proof.
  intros Hop st k Hk. unfold fs_op.
  destruct (op (fs st)) as [fs'|] eqn:E; simpl; [|reflexivity].
  now apply (Hop _ _ _ E).
Qed.

Lemma touches_bind {A B} (m : M A) (f : A -> M B) :
  touches P m -> (forall a, touches P (f a)) -> touches P (bind m f).
Proof.
  intros Hm Hf st k Hk. unfold bind. specialize (Hm st k Hk).
  destruct (m st) as [a st1 | e st1]; simpl in *; [|exact Hm].
  now rewrite (Hf a st1 k Hk).
Qed.

Lemma touches_try {A} (m : M A) (handler : exn -> M A) :
  touches P m -> (forall e, touches P (handler e)) -> touches P (try_except m handler).
Proof.
  intros Hm Hh st k Hk. unfold try_except. specialize (Hm st k Hk).
  destruct (m st) as [a st1 | e st1]; simpl in *; [exact Hm|].
  now rewrite (Hh e st1 k Hk).
Qed.

Lemma touches_for_each_in {A} (xs : list A) (body : A -> M unit) :
  (forall x, List.In x xs -> touches P (body x)) -> touches P (for_each xs body).
Proof.
  induction xs as [|x xs IH]; intros Hb; simpl.
  - apply touches_ret.
  - apply touches_bind; [apply Hb; now left | intros _].
    apply IH. intros y Hy. apply Hb. now right.
Qed.

End Touches.

Lemma touches_weaken {A} (P Q : Path -> Prop) (m : M A) :
  (forall k, P k -> Q k) -> touches P m -> touches Q m.
Proof. intros HPQ Hm st k Hk. apply Hm. auto. Qed.

Lemma touches_unlink f : touches (fun k => k = f) (fs_op (fun fs => unlink fs f)).
Proof.
  apply touches_fs_op. intros fs fs' k Hu Hk. unfold unlink in Hu.
  destruct (fs !! f) as [[]|]; try discriminate. injection Hu as <-.
  apply lookup_delete_ne. congruence.
Qed.

Lemma touches_write_file p img :
  touches (fun k => k = p) (fs_op (fun fs => write_file fs p img)).
Proof.
  apply touches_fs_op. intros fs fs' k Hw Hk. unfold write_file in Hw.
  destruct (parent p); [|discriminate].
  destruct (lookup_node fs p0) as [[]|]; try discriminate.
  destruct (fs !! p) as [[]|]; try discriminate; injection Hw as <-;
    apply lookup_insert_ne; congruence.
Qed.

(** [mkdir_from] changes nothing but paths on the way from [base] to the
    directory asked for. *)
Lemma mkdir_from_changes anc rest : forall base fs fs',
  mkdir_from anc base rest fs = Some fs' ->
  forall k, fs' !! k = fs !! k
            \/ (anchored k = anc
                /\ exists pre, pre <> [] /\ pre `prefix_of` rest
                               /\ parts k = base ++ pre).
Proof.
  induction rest as [|c rest IH]; intros base fs fs'; simpl.
  - intros [= <-] k. now left.
  - set (p := {| anchored := anc; parts := base ++ [c] |}).
    assert (Hstep : forall fs0, mkdir_from anc (base ++ [c]) rest fs0 = Some fs' ->
              forall k, fs' !! k = fs0 !! k
                        \/ (anchored k = anc
                            /\ exists pre, pre <> [] /\ pre `prefix_of` c :: rest
                                           /\ parts k = base ++ pre)).
    { intros fs0 Hm k. destruct (IH _ _ _ Hm k) as [E | (Ea & pre & Hne & Hpre & Ep)].
      - now left.
      - right. split; [exact Ea|]. exists (c :: pre).
        split; [discriminate|]. split; [now apply prefix_cons|].
        now rewrite Ep, <- List.app_assoc. }
    destruct (fs !! p) as [[x|]|] eqn:Ep; try discriminate.
    + intros Hm. now apply Hstep.
    + intros Hm k. destruct (Hstep _ Hm k) as [E | Hr]; [|now right].
      destruct (decide (k = p)) as [-> | Hne].
      * right. split; [reflexivity|]. exists [c].
        split; [discriminate|]. split; [|reflexivity].
        apply prefix_cons, prefix_nil.
      * left. now rewrite E, lookup_insert_ne.
Qed.

Lemma touches_mkdir_p d :
  touches (fun k => leads_to k d) (fs_op (fun fs => mkdir_p fs d)).
Proof.
  apply touches_fs_op. intros fs fs' k Hm Hk. unfold mkdir_p in Hm.
  destruct (mkdir_from_changes _ _ _ _ _ Hm k) as [E | (Ea & pre & Hne & Hpre & Ep)];
    [exact E|].
  destruct Hk. simpl in Ep. unfold leads_to. now rewrite Ep.
Qed.

Lemma leads_to_not_child k d : parent k = Some d -> ~ leads_to k d.
Proof.
  intros Hp (_ & _ & Hpre). apply parent_longer in Hp.
  apply prefix_length in Hpre. lia.
Qed.

Section ScriptTouches.
Context `{UnicodeData} (W : World).

Lemma touches_run (P : Path -> Prop) cmd : touches P (run W cmd).
Proof.
  unfold run. apply touches_bind; [apply touches_get_trace | intros hist].
  apply touches_bind; [apply touches_emit | intros _].
  destruct (subprocess_run W hist cmd); [apply touches_ret | apply touches_raise].
Qed.

(** The reset of a directory changes its entries and, when the directory
    is missing, makes it and what leads to it. *)
Lemma touches_reset d :
  touches (fun k => parent k = Some d \/ leads_to k d) (reset_frames_dir d).
Proof.
  intros st. unfold reset_frames_dir, get_fs. unfold bind at 1 2.
  assert (Hmk : touches (fun k => parent k = Some d \/ leads_to k d)
                  (fs_op (fun fs => mkdir_p fs d))).
  { eapply touches_weaken; [|apply touches_mkdir_p]. tauto. }
  destruct (path_exists (fs st) d).
  - unfold iterdir. destruct (lookup_node (fs st) d) as [[x|]|];
      try (intros k Hk; reflexivity).
    pose proof (touches_for_each_in (fun k => parent k = Some d \/ leads_to k d)
                  (entries (fs st) d)
                  (fun f => fs_op (fun fs => unlink fs f))) as Hloop.
    assert (Hl : touches (fun k => parent k = Some d \/ leads_to k d)
                   (for_each (entries (fs st) d)
                      (fun f => fs_op (fun fs => unlink fs f)))).
    { apply Hloop. intros f Hf%in_entries.
      eapply touches_weaken; [|apply touches_unlink].
      intros k ->. left. tauto. }
    intros k Hk. specialize (Hl st k Hk).
    destruct (for_each _ _ st) as [[] st1 | e st1]; simpl in *; [|exact Hl].
    now rewrite (Hmk st1 k Hk).
  - intros k Hk. apply (Hmk st k Hk).
Qed.

(** The frame sampler makes its directory and writes frame files of the
    seeds it has, and changes nothing else. *)
Lemma touches_make_frames pipeline prompt d F w h dev seeds :
  let n := match seeds with
           | None => length (default_seeds F)
           | Some l => length l
           end in
  touches (fun k => leads_to k d
                    \/ exists i, 0 <= i < Z.of_nat n /\ k = joinpath d (frame_file i))
    (make_frames_for_prompt pipeline prompt d F w h dev seeds).
Proof.
  intros n. unfold make_frames_for_prompt.
  apply touches_bind.
  { eapply touches_weaken; [|apply touches_mkdir_p]. tauto. }
  intros _. apply touches_bind; [|intros; apply touches_ret].
  apply touches_for_each_in. intros [i s] Hin.
  assert (0 <= i < Z.of_nat n) as Hi.
  { apply list_elem_of_In, list_elem_of_lookup in Hin as [k Hk].
    unfold enumerate in Hk. rewrite enumerate_from_lookup in Hk.
    destruct (_ !! k) as [s'|] eqn:Es; [|discriminate].
    injection Hk as <- _. apply lookup_lt_Some in Es.
    subst n. destruct seeds; lia. }
  unfold frame_step, sample, save.
  apply touches_bind.
  - apply touches_bind; [apply touches_get_trace | intros hist].
    apply touches_bind; [apply touches_emit | intros _].
    destruct (pipeline _ _ _ _ _ _ _); [apply touches_ret | apply touches_raise].
  - intros img. apply touches_bind; [|intros; apply touches_emit].
    eapply touches_weaken; [|apply touches_write_file].
    intros k ->. right. eauto.
Qed.

Lemma touches_process_planet args pipe dev out_base working p :
  let d := joinpath working (safe_name (planet_name p)) in
  touches (fun k => leads_to k d \/ parent k = Some d)
    (process_planet W args pipe dev out_base working p).
Proof.
  intros d. unfold process_planet. fold d.
  apply touches_bind.
  { eapply touches_weaken; [|apply (touches_reset d)].
    intros k [Hk | Hk]; [right | left]; exact Hk. }
  intros _. unfold generate_and_assemble, print.
  apply touches_bind; [apply touches_emit | intros _].
  apply touches_bind.
  - apply touches_try.
    + apply touches_bind; [|intros; apply touches_ret].
      eapply touches_weaken; [|apply touches_make_frames].
      intros k [Hk | (i & _ & ->)]; [now left | right].
      apply frame_path_parent.
    + intros _. apply touches_bind; [apply touches_emit | intros; apply touches_ret].
  - intros generated. destruct (negb generated); [apply touches_ret|].
    apply touches_bind; [apply touches_emit | intros _].
    apply touches_try.
    + apply touches_bind; [apply touches_run | intros; apply touches_emit].
    + intros _. apply touches_emit.
Qed.

End ScriptTouches.


(** ** What a run changes on disk *)

Lemma in_cache_leads_to k d : in_cache d -> leads_to k d -> in_cache k.
Proof.
  intros [Ha (rest & Er)] (Hk & Hne & [suf Hs]). split; [congruence|].
  rewrite Er in Hs. destruct (parts k) as [|c ws]; [tauto|].
  injection Hs as <- _. eauto.
Qed.

Lemma in_cache_child k d : in_cache d -> parent k = Some d -> in_cache k.
Proof.
  intros [Ha (rest & Er)] (c & Ec & Ek)%parent_inv. split; [congruence|].
  rewrite Ec, Er. simpl. eauto.
Qed.

Lemma in_cache_WORKING : in_cache WORKING.
Proof. split; [reflexivity|]. now exists []. Qed.

Section DiskTheorems.
Context `{UnicodeData} (W : World) (args : Args).

Lemma in_cache_frames_dir p : in_cache (frames_dir_of p).
Proof.
  unfold frames_dir_of. destruct (safe_name (planet_name p)) as [|c s] eqn:E.
  - apply in_cache_WORKING.
  - destruct (safe_name_simple (planet_name p)) as [Hdot Hs].
    rewrite <- E. rewrite joinpath_simple; [| rewrite E; discriminate | assumption ..].
    split; [reflexivity|]. simpl. eauto.
Qed.

Lemma touches_process_catalog pipe dev planets :
  touches in_cache (process_catalog W args pipe dev planets).
Proof.
  unfold process_catalog, print.
  apply touches_bind.
  { eapply touches_weaken; [|apply touches_mkdir_p].
    intros k. apply in_cache_leads_to, in_cache_WORKING. }
  intros _. apply touches_bind; [|intros; apply touches_emit].
  apply touches_for_each_in. intros p _.
  eapply touches_weaken; [|apply touches_process_planet].
  intros k [Hk | Hk].
  - eapply in_cache_leads_to; [apply (in_cache_frames_dir p) | exact Hk].
  - eapply in_cache_child; [apply (in_cache_frames_dir p) | exact Hk].
Qed.

(** X7. Whatever happens in a run, every path of the tree that is not
    [.cache_video_frames] or below it is afterwards what it was before:
    nothing is made, written or removed elsewhere. *)
Theorem only_the_cache_changes disk k :
  ~ in_cache k -> fs (state_of (main W args disk)) !! k = disk !! k.
Proof.
  intros Hk.
  destruct (main_cases W args disk)
    as [[_ ->] | [(_ & _ & ->) | (_ & _ & [[_ ->] | (pipe & _ & [[_ ->] |
         (planets & Hj & [[_ ->] | [_ ->]])])])]]; try reflexivity.
  exact (touches_process_catalog pipe (chosen_device W) planets
           {| fs := disk; trace := preamble W args true |} k Hk).
Qed.

(** X2. Until the probe has succeeded a run does nothing for any record: if it
    stops earlier, for a missing library or token, a model that does not
    load, a catalog that cannot be read or a failed probe, the disk is as it
    was, no record is announced and no frame is asked for. *)
Theorem nothing_before_probe disk :
  let r := main W args disk in
  ~ List.In (EvRun ffmpeg_version_cmd true) (trace (state_of r)) ->
  ~ is_ok r /\ fs (state_of r) = disk
  /\ attempted (trace (state_of r)) = []
  /\ sampled (trace (state_of r)) = []
  /\ saved (trace (state_of r)) = [].
Proof.
  intros r Hno. subst r.
  destruct (main_cases W args disk)
    as [[_ E] | [(_ & _ & E) | (_ & _ & [[_ E] | (pipe & _ & [[_ E] |
         (planets & Hj & [[_ E] | [_ E]])])])]]; rewrite E in *; simpl;
    try (repeat split; solve [auto | reflexivity]).
  exfalso. apply Hno.
  destruct (emits_process_catalog W args pipe (chosen_device W) planets
              {| fs := disk; trace := preamble W args true |}) as (evs & Et & _).
  rewrite Et. apply List.in_app_iff. left. simpl. tauto.
Qed.

(** X1. The model is asked for exactly when the library is installed and one of
    [HUGGINGFACE_TOKEN] and [HF_TOKEN] holds a string that is not empty;
    otherwise the run raises a [RuntimeError] before it prints or does
    anything. *)
Theorem model_load_needs_library_and_token disk :
  let r := main W args disk in
  let ready := diffusers_installed W
               && (truthy (environ_get W (lit "HUGGINGFACE_TOKEN"))
                   || truthy (environ_get W (lit "HF_TOKEN"))) in
  (ready = true <-> model_loads (trace (state_of r)) = [model args])
  /\ (ready = false ->
      exists msg, r = Raise (RuntimeError msg) {| fs := disk; trace := [] |}).
Proof.
  intros r ready. subst r.
  assert (Htok : has_token W = truthy (environ_get W (lit "HUGGINGFACE_TOKEN"))
                               || truthy (environ_get W (lit "HF_TOKEN"))).
  { unfold has_token, py_or.
    destruct (truthy (environ_get W (lit "HUGGINGFACE_TOKEN"))) eqn:E1;
      [exact E1 | reflexivity]. }
  subst ready. rewrite <- Htok.
  destruct (main_cases W args disk)
    as [[Hl E] | [(Hl & Ht & E) | (Hl & Ht & Hrest)]].
  - rewrite E, Hl. simpl. split; [split; discriminate | eauto].
  - rewrite E, Hl, Ht. simpl. split; [split; discriminate | eauto].
  - rewrite Hl, Ht. simpl. split; [|discriminate]. split; [intros _|reflexivity].
    destruct Hrest as [[_ E] | (pipe & _ & [[_ E] | (planets & Hj & [[_ E] | [_ E]])])];
      rewrite E; try reflexivity.
    destruct (emits_process_catalog_of W args pipe planets
                {| fs := disk; trace := preamble W args true |}) as (evs & Et & Hevs).
    rewrite Et. unfold model_loads. rewrite List.flat_map_app. simpl.
    f_equal. clear - Hevs.
    induction Hevs as [|e evs He _ IH]; [reflexivity|].
    destruct He as [[m ->] | (p & _ & He)]; [exact IH|].
    destruct e; simpl in *; try tauto.
Qed.

End DiskTheorems.


(** ** Names, directories and videos of records *)

Section Names.
Context `{UnicodeData}.

(** X11. Which name a record goes by: [pl_name] when it is there and not empty,
    else [name] when that is, else the word planet; never the empty
    string. *)
Theorem planet_name_fallback (p : planet) :
  planet_name p <> []
  /\ (truthy (get_pl_name p) = true -> Some (planet_name p) = get_pl_name p)
  /\ (truthy (get_pl_name p) = false -> truthy (get_name p) = true ->
      Some (planet_name p) = get_name p)
  /\ (truthy (get_pl_name p) = false -> truthy (get_name p) = false ->
      planet_name p = lit "planet"
      /\ safe_name (planet_name p) = lit "planet").
Proof.
  unfold planet_name, py_or.
  destruct (get_pl_name p) as [[|c s]|], (get_name p) as [[|c' s']|]; simpl;
    repeat split; try discriminate; try reflexivity; intros; discriminate.
Qed.

Lemma kept_cases c :
  kept c = true ->
  isalnum c = true \/ c = SPACE \/ c = HYPHEN \/ c = UNDERSCORE.
Proof.
  unfold kept. rewrite !orb_true_iff, !N.eqb_eq. tauto.
Qed.

Lemma safe_name_chars (name : str) :
  List.Forall (fun c => (isalnum c = true \/ c = HYPHEN \/ c = UNDERSCORE)
                        /\ c <> SPACE) (safe_name name).
Proof.
  unfold safe_name, replace. apply List.Forall_map.
  apply Forall_strip, List.Forall_forall. intros c Hc.
  apply List.filter_In in Hc as [_ Hc]. apply kept_cases in Hc.
  destruct (N.eqb_spec c SPACE) as [-> | Hne].
  - split; [auto | discriminate].
  - split; [tauto | exact Hne].
Qed.

Lemma safe_name_stripped (name : str) : strip (safe_name name) = safe_name name.
Proof.
  unfold safe_name.
  destruct (strip_clean (List.filter kept name)) as [H1 H2].
  apply strip_fixed.
  - now apply replace_clean_start.
  - rewrite replace_rev. now apply replace_clean_start.
Qed.

(** X12. A sanitised name is made of letters, digits, hyphens and
    underscores only: it has no space, no slash and no dot, and it neither
    starts nor ends with a blank. *)
Theorem safe_name_alphabet (name : str) :
  List.Forall (fun c => isalnum c = true \/ c = HYPHEN \/ c = UNDERSCORE)
              (safe_name name)
  /\ ~ List.In SPACE (safe_name name)
  /\ ~ List.In SLASH (safe_name name)
  /\ ~ List.In 46%N (safe_name name)
  /\ strip (safe_name name) = safe_name name.
Proof.
  pose proof (safe_name_chars name) as Hall.
  rewrite List.Forall_forall in Hall. split; [|split; [|split; [|split]]].
  - apply List.Forall_forall. intros c Hc. now apply Hall.
  - intros Hin. now apply Hall in Hin as [_ Hne].
  - apply safe_name_simple.
  - intros Hin. apply Hall in Hin as [[Ha | [Ha | Ha]] _]; discriminate Ha.
  - apply safe_name_stripped.
Qed.

(** X13. The names that sanitisation leaves as they are: exactly those
    made of letters, digits, hyphens and underscores that neither start nor
    end with a blank. *)
Theorem safe_name_unchanged_iff (s : str) :
  safe_name s = s
  <-> List.Forall (fun c => isalnum c = true \/ c = HYPHEN \/ c = UNDERSCORE) s
      /\ strip s = s.
Proof.
  split.
  - intros E. rewrite <- E. split; [|apply safe_name_stripped].
    eapply List.Forall_impl; [|apply safe_name_chars].
    intros c [Hc _]. exact Hc.
  - intros [Hall Hs]. unfold safe_name.
    assert (List.filter kept s = s) as ->.
    { apply filter_fixed. eapply List.Forall_impl; [|exact Hall].
      intros c [Ha | [-> | ->]]; [|reflexivity..].
      unfold kept. now rewrite Ha. }
    rewrite Hs. unfold replace. rewrite <- (List.map_id s) at 2.
    apply List.map_ext_Forall. eapply List.Forall_impl; [|exact Hall].
    intros c Hc. destruct (N.eqb_spec c SPACE) as [-> | _]; [|reflexivity].
    destruct Hc as [Ha | [Ha | Ha]]; discriminate Ha.
Qed.

(** X14. The video of a record lies directly in the output directory and is
    called after the sanitised name, with [.mp4] behind it; a name that
    sanitises to nothing gives [.mp4]. *)
Theorem video_in_outdir (name : str) (out_base : Path) :
  let out_mp4 := joinpath out_base (safe_name name ++ lit ".mp4") in
  path_name out_mp4 = safe_name name ++ lit ".mp4"
  /\ parent out_mp4 = Some out_base.
Proof.
  intros out_mp4. subst out_mp4.
  destruct (safe_name_simple name) as [_ Hs].
  rewrite joinpath_simple.
  - split; [apply List.last_last|].
    rewrite parent_snoc. now destruct out_base.
  - now destruct (safe_name name).
  - intros E. apply (f_equal (@length char)) in E.
    rewrite List.length_app in E. simpl in E. unfold char in *. lia.
  - rewrite List.in_app_iff. intros [Hin | Hin]; [now apply Hs|].
    vm_compute in Hin. intuition discriminate.
Qed.

End Names.


(** ** Frames on disk *)

(** However the frame loop ends, the files it has saved are on disk, and
    what was a file before still is one. *)
Lemma frame_loop_saved pipeline prompt d w h dev (l : list (Z * Z)) : forall st,
  let r := for_each l (frame_step pipeline prompt d w h dev) st in
  (forall q img, fs st !! q = Some (File img) ->
     exists img', fs (state_of r) !! q = Some (File img'))
  /\ exists evs, trace (state_of r) = trace st ++ evs
       /\ forall q, List.In q (saved evs) ->
            exists img, fs (state_of r) !! q = Some (File img).
Proof.
  induction l as [|f l IH]; intros st; simpl.
  - split; [eauto|]. exists []. rewrite List.app_nil_r. split; [reflexivity|].
    intros q [].
  - unfold bind.
    destruct (frame_step_cases pipeline prompt d w h dev f st)
      as [(img & Ew & Eok & Et) | (Hno & Efs & Et)].
    + rewrite Eok. destruct (IH (state_of (frame_step pipeline prompt d w h dev f st)))
        as (Hkeep & evs & E & Hs).
      assert (Ei : fs (state_of (frame_step pipeline prompt d w h dev f st))
                   = <[frame_path d f := File img]> (fs st)).
      { unfold write_file in Ew. destruct (parent (frame_path d f)); [|discriminate].
        destruct (lookup_node (fs st) p) as [[]|]; try discriminate.
        destruct (fs st !! frame_path d f) as [[]|]; congruence. }
      split.
      * intros q img0 Hq. destruct (decide (q = frame_path d f)) as [-> | Hne].
        -- apply (Hkeep _ img). rewrite Ei. apply lookup_insert_eq.
        -- apply (Hkeep _ img0). rewrite Ei. now rewrite lookup_insert_ne.
      * eexists (_ ++ evs). rewrite E, Et, <- List.app_assoc.
        split; [reflexivity|]. rewrite saved_app. simpl.
        intros q [<- | Hq]; [|now apply Hs].
        apply (Hkeep _ img). rewrite Ei. apply lookup_insert_eq.
    + destruct (frame_step _ _ _ _ _ _ f st) as [[] st1 | e st1]; simpl in *;
        [tauto|]. rewrite Efs. split; [eauto|].
      eexists. split; [exact Et|]. simpl. intros q [].
Qed.

(** X10. Frames are not rolled back: when the frame sampler raises, the frames
    it had saved by then, the first ones in order, are files on disk. *)
Theorem partial_frames_remain pipeline prompt d F w h dev seeds st e st' :
  make_frames_for_prompt pipeline prompt d F w h dev seeds st = Raise e st' ->
  exists evs,
    trace st' = trace st ++ evs
    /\ saved evs `prefix_of`
         List.map (frame_path d)
           (enumerate (match seeds with None => default_seeds F | Some l => l end))
    /\ forall q, List.In q (saved evs) ->
         exists img, fs st' !! q = Some (File img).
Proof.
  intros Hrun.
  destruct (make_frames_trace pipeline prompt d F w h dev seeds st)
    as (evs & E & _ & Hpre & _).
  rewrite Hrun in E. simpl in E.
  exists evs. split; [exact E|]. split; [exact Hpre|].
  unfold make_frames_for_prompt, bind, fs_op in Hrun.
  destruct (mkdir_p (fs st) d) as [fs1|]; simpl in Hrun.
  - match type of Hrun with
    | context [for_each ?l ?step ?s] =>
        destruct (frame_loop_saved pipeline prompt d w h dev l s)
          as (_ & evs' & E' & Hs);
        destruct (for_each l step s) as [[] st1 | e1 st1]; [discriminate|]
    end.
    injection Hrun as <- <-. simpl in E', Hs.
    rewrite E in E'. apply List.app_inv_head in E'. now subst evs'.
  - injection Hrun as <- <-.
    rewrite <- (List.app_nil_r (trace st)) in E at 1.
    apply List.app_inv_head in E. subst evs. intros q [].
Qed.

(** X9. The frame sampler never removes anything: an entry of its directory
    that is not one of the frame files of this call is afterwards what it
    was before, whether the call returns or raises. A frame of an earlier,
    longer sequence stays. *)
Theorem make_frames_keeps_other_files pipeline prompt d F w h dev seeds st k :
  let n := match seeds with
           | None => length (default_seeds F)
           | Some l => length l
           end in
  parent k = Some d ->
  (forall i, 0 <= i < Z.of_nat n -> k <> joinpath d (frame_file i)) ->
  fs (state_of (make_frames_for_prompt pipeline prompt d F w h dev seeds st)) !! k
  = fs st !! k.
Proof.
  intros n Hp Hk.
  apply (touches_make_frames pipeline prompt d F w h dev seeds).
  intros [Hl | (i & Hi & ->)].
  - now apply leads_to_not_child in Hp.
  - now apply (Hk i).
Qed.

Section Records.
Context `{UnicodeData} (W : World) (args : Args).

(** X8. Processing a record leaves the frames of the other records alone: an
    entry of the frames directory of a record with another sanitised name
    is afterwards what it was before, whatever happens. *)
Theorem other_records_untouched pipe dev out_base (p q : planet) st k :
  safe_name (planet_name p) <> [] ->
  safe_name (planet_name q) <> [] ->
  safe_name (planet_name q) <> safe_name (planet_name p) ->
  parent k = Some (frames_dir_of q) ->
  fs (state_of (process_planet W args pipe dev out_base WORKING p st)) !! k
  = fs st !! k.
Proof.
  intros Hp Hq Hne Hk.
  apply (touches_process_planet W args pipe dev out_base WORKING p).
  fold (frames_dir_of p).
  pose proof (frames_dir_parent (planet_name p) Hp) as Pp.
  pose proof (frames_dir_parent (planet_name q) Hq) as Pq.
  fold (frames_dir_of p) in Pp. fold (frames_dir_of q) in Pq.
  intros [(_ & _ & Hpre) | Hk'].
  - apply prefix_length in Hpre.
    apply parent_longer in Hk, Pp, Pq. lia.
  - rewrite Hk in Hk'. injection Hk' as E. unfold frames_dir_of in E.
    destruct (safe_name_simple (planet_name p)) as [Dp Sp].
    destruct (safe_name_simple (planet_name q)) as [Dq Sq].
    rewrite !joinpath_simple in E by assumption.
    injection E as E. congruence.
Qed.

(** X6. Every file saved in a run is a frame file [frame_<i>.png], with [i]
    below the frame count, in the frames directory of a record of the
    catalog. *)
Theorem every_save_is_a_frame disk k :
  List.In (EvSave k) (trace (state_of (main W args disk))) ->
  exists planets p i,
    read_json W (data args) = Some planets /\ List.In p planets
    /\ 0 <= i < frames args
    /\ k = joinpath (frames_dir_of p) (frame_file i)
    /\ parent k = Some (frames_dir_of p).
Proof.
  intros Hin. apply main_event in Hin as [Hin | [Hin | (planets & Hj & Hin)]].
  - simpl in Hin. intuition discriminate.
  - discriminate Hin.
  - destruct Hin as [[m Hm] | (p & Hp & i & Hi & ->)]; [discriminate Hm|].
    exists planets, p, i. repeat split; try tauto. apply frame_path_parent.
Qed.

End Records.


(** ** Records with a name that sanitises to nothing, and records that
    succeed *)

Lemma tidy_singleton : tidy {[ WORKING := Dir ]}.
Proof.
  split; [|split].
  - apply lookup_singleton_eq.
  - intros k Hp [x Hx]. apply lookup_singleton_Some in Hx as [<- _].
    now apply parent_neq in Hp.
  - intros k d Hp Hd [x Hx]. apply lookup_singleton_Some in Hx as [<- _].
    now apply (parent_parent_neq _ _ _ Hp) in Hd.
Qed.

Lemma joinpath_empty p : joinpath p [] = p.
Proof. unfold joinpath. simpl. rewrite List.app_nil_r. now destruct p. Qed.

Lemma unlink_directories (l : list Path) st :
  l <> [] -> (forall k, List.In k l -> fs st !! k = Some Dir) ->
  for_each l (fun f => fs_op (fun fs => unlink fs f)) st = Raise OSError st.
Proof.
  destruct l as [|x l]; [tauto|]. intros _ Hd. simpl.
  unfold bind, fs_op, unlink. now rewrite (Hd x) by now left.
Qed.

Section EdgeRecords.
Context `{UnicodeData} (W : World) (args : Args).

(** X15. A record whose name sanitises to the empty string has the working
    directory itself as its frames directory. Once that directory holds the
    directory of another record, resetting it raises on the first entry,
    outside of any [try]: the body raises [OSError] with nothing changed,
    and so does the loop, which never reaches the records that follow. *)
Theorem empty_name_aborts pipe dev out_base (p : planet) (rest : list planet) st :
  let body := process_planet W args pipe dev out_base WORKING in
  tidy (fs st) ->
  safe_name (planet_name p) = [] ->
  (exists k, parent k = Some WORKING /\ is_Some (fs st !! k)) ->
  frames_dir_of p = WORKING
  /\ body p st = Raise OSError st
  /\ for_each (p :: rest) body st = Raise OSError st.
Proof.
  intros body (T1 & T2 & _) Hsafe (k & Hk & Hs).
  assert (Hd : frames_dir_of p = WORKING)
    by (unfold frames_dir_of; rewrite Hsafe; apply joinpath_empty).
  assert (Hb : body p st = Raise OSError st).
  { subst body. unfold process_planet. fold (frames_dir_of p). rewrite Hd.
    unfold bind at 1, reset_frames_dir, bind at 1 2, get_fs.
    unfold path_exists, iterdir.
    assert (lookup_node (fs st) WORKING = Some Dir) as -> by exact T1.
    rewrite unlink_directories; [reflexivity | |].
    - intros E. assert (List.In k (entries (fs st) WORKING)) as Hin
        by now apply in_entries.
      now rewrite E in Hin.
    - intros x Hx%in_entries. destruct Hx as [Hx Hp]. now apply T2. }
  split; [exact Hd|]. split; [exact Hb|].
  simpl. unfold bind at 1. now rewrite Hb.
Qed.

(** X16. A record that goes through: after the reset, when all frames are
    generated and the encoder succeeds, the record's events are its
    announcement, the saves of its frames [0 .. F-1] in order with no
    command in between, then one run of the encoder command and the line
    that reports the video. *)
Theorem success_assembles_video pipe dev out_base working (p : planet)
    (st st0 st1 : State) (d : Path) :
  let name := planet_name p in
  let safe := safe_name name in
  let frames_dir := joinpath working safe in
  let out_mp4 := joinpath out_base (safe ++ lit ".mp4") in
  let cmd := assemble_cmd frames_dir out_mp4 (fps args) in
  reset_frames_dir frames_dir st = Ok tt st0 ->
  make_frames_for_prompt pipe (planet_prompt name) frames_dir (frames args)
    (width args) (height args) dev None
    {| fs := fs st0;
       trace := trace st0 ++ [EvPrint (MsgGenerating name frames_dir)] |}
  = Ok d st1 ->
  subprocess_run W (trace st1 ++ [EvPrint (MsgAssembling out_mp4)]) cmd = true ->
  process_planet W args pipe dev out_base working p st
  = Ok tt {| fs := fs st1;
             trace := trace st1 ++ [EvPrint (MsgAssembling out_mp4);
                                    EvRun cmd true;
                                    EvPrint (MsgSaved out_mp4)] |}
  /\ exists evs,
       trace st1 = trace st ++ EvPrint (MsgGenerating name frames_dir) :: evs
       /\ saved evs = List.map (fun i => joinpath frames_dir (frame_file i))
                               (range (frames args))
       /\ commands evs = [].
Proof.
  intros name safe frames_dir out_mp4 cmd Hreset Hgen Hrun. split.
  - unfold process_planet, bind at 1. fold name safe frames_dir.
    rewrite Hreset.
    unfold generate_and_assemble, bind at 1, print, emit.
    unfold bind at 1, try_except at 1, bind at 1.
    rewrite Hgen. simpl. fold out_mp4.
    unfold bind at 1, try_except, bind at 1, assemble_video, run, bind at 1.
    simpl. fold cmd. rewrite Hrun. simpl.
    now rewrite <- !List.app_assoc.
  - pose proof (reset_trace frames_dir st) as Ht. rewrite Hreset in Ht.
    simpl in Ht.
    destruct (make_frames_trace pipe (planet_prompt name) frames_dir
                (frames args) (width args) (height args) dev None
                {| fs := fs st0;
                   trace := trace st0 ++ [EvPrint (MsgGenerating name frames_dir)] |})
      as (evs & E & _ & _ & Hok).
    destruct (emits_make_frames pipe (planet_prompt name) frames_dir
                (frames args) (width args) (height args) dev None
                {| fs := fs st0;
                   trace := trace st0 ++ [EvPrint (MsgGenerating name frames_dir)] |})
      as (evs' & E' & Hevs).
    rewrite Hgen in E, E', Hok. simpl in E, E', Hok.
    rewrite E in E'. apply List.app_inv_head in E'. subst evs'.
    exists evs. split; [now rewrite E, Ht, <- List.app_assoc|].
    split; [|now apply commands_frame_events].
    destruct (Hok I) as [_ ->].
    now rewrite frame_paths_of_range, default_seeds_length, range_of_to_nat.
Qed.

(** X18. A run keeps the working directory in shape: started on an empty disk
    or with a tidy working directory, and with no name that sanitises to
    nothing, it ends with the disk as it was or with a tidy working
    directory, a directory of record directories that hold files only,
    whatever fails on the way. *)
Theorem run_keeps_cache_tidy disk :
  disk = ∅ \/ tidy disk ->
  (forall planets, read_json W (data args) = Some planets ->
     List.Forall (fun p => safe_name (planet_name p) <> []) planets) ->
  let after := fs (state_of (main W args disk)) in
  after = disk \/ tidy after.
Proof.
  intros Hdisk Hnames after. subst after.
  destruct (main_cases W args disk)
    as [[_ ->] | [(_ & _ & ->) | (_ & _ & [[_ ->] | (pipe & _ & [[_ ->] |
         (planets & Hj & [[_ ->] | [_ ->]])])])]]; try (now left).
  right. destruct (tidy_after_mkdir disk Hdisk) as (fs1 & Hmk & Ht1).
  unfold process_catalog, bind at 1, fs_op. simpl fs. rewrite Hmk.
  destruct (for_each_planets_tidy W args pipe (chosen_device W)
              (Path_of (outdir args)) planets
              {| fs := fs1; trace := preamble W args true |} Ht1 (Hnames _ Hj))
    as (st1 & E1 & Ht & _).
  unfold bind at 1. simpl trace. rewrite E1. exact Ht.
Qed.

End EdgeRecords.

(** X19. The default seeds of the frames of a record are all different,
    and there are as many as the frame count says, none for a count that is
    not positive. *)
Theorem default_seeds_distinct F :
  NoDup (default_seeds F) /\ length (default_seeds F) = Z.to_nat F.
Proof.
  split; [|apply default_seeds_length].
  unfold default_seeds. rewrite map_fmap.
  apply NoDup_fmap_2_strong; [|apply range_NoDup]. intros x y _ _. lia.
Qed.


(** ** The properties above at concrete runs *)

Ltac find_in_list := repeat (first [left; reflexivity | right]).

Lemma model_load_needs_library_and_token_witness :
  model_loads (trace (state_of (@main ascii_only
     (example_world true demo_pipeline true) (example_args 0) ∅)))
  = [lit "runwayml/stable-diffusion-v1-5"]
  /\ exists msg, @main ascii_only empty_token_world (example_args 0) ∅
                 = Raise (RuntimeError msg) {| fs := ∅; trace := [] |}.
Proof.
  split.
  - apply (proj1 (@model_load_needs_library_and_token ascii_only
                    (example_world true demo_pipeline true) (example_args 0) ∅)).
    reflexivity.
  - apply (proj2 (@model_load_needs_library_and_token ascii_only
                    empty_token_world (example_args 0) ∅)).
    reflexivity.
Defined.

Lemma nothing_before_probe_witness :
  let r := @main ascii_only (example_world false demo_pipeline true)
             (example_args 0) ∅ in
  ~ is_ok r /\ fs (state_of r) = ∅ /\ attempted (trace (state_of r)) = []
  /\ sampled (trace (state_of r)) = [] /\ saved (trace (state_of r)) = [].
Proof.
  intros r.
  apply (@nothing_before_probe ascii_only (example_world false demo_pipeline true)
           (example_args 0) ∅).
  vm_compute. intuition discriminate.
Defined.

Lemma every_request_is_a_frame_witness :
  let W := example_world true demo_pipeline true in
  let prompt := planet_prompt (lit "??bad/name") ++ frame_suffix ++ lit "2" in
  exists planets p i,
    read_json W (data (example_args 0)) = Some planets /\ List.In p planets
    /\ 0 <= i < 2
    /\ prompt = planet_prompt (planet_name p) ++ frame_suffix ++ str_of_int (i + 1)
    /\ 1007 = 1000 + i * 7
    /\ 1024 = 1024 /\ 576 = 576 /\ 20 = 20 /\ cpu = chosen_device W.
Proof.
  intros W prompt.
  apply (@every_request_is_a_frame ascii_only W (example_args 0) ∅
           prompt 1024 576 20 cpu 1007).
  vm_compute. find_in_list.
Defined.

Lemma every_command_is_known_witness :
  let W := example_world true demo_pipeline true in
  let args := example_args 0 in
  let cmd := assemble_cmd (joinpath WORKING (lit "badname"))
               (Path_of (lit "public/images/badname.mp4")) 12 in
  cmd = ffmpeg_version_cmd
  \/ exists planets p,
       read_json W (data args) = Some planets /\ List.In p planets
       /\ cmd = assemble_cmd (@frames_dir_of ascii_only p)
                  (@video_of ascii_only args p) (fps args).
Proof.
  intros W args cmd.
  apply (@every_command_is_known ascii_only W args ∅ cmd true).
  vm_compute. find_in_list.
Defined.

Lemma every_save_is_a_frame_witness :
  let W := example_world true demo_pipeline true in
  let args := example_args 0 in
  let k := Path_of (lit ".cache_video_frames/Kepler-10b/frame_0001.png") in
  exists planets p i,
    read_json W (data args) = Some planets /\ List.In p planets
    /\ 0 <= i < frames args
    /\ k = joinpath (@frames_dir_of ascii_only p) (frame_file i)
    /\ parent k = Some (@frames_dir_of ascii_only p).
Proof.
  intros W args k.
  apply (@every_save_is_a_frame ascii_only W args ∅ k).
  vm_compute. find_in_list.
Defined.

Lemma only_the_cache_changes_witness :
  fs (state_of (@main ascii_only (example_world true demo_pipeline true)
                  (example_args 0) ∅)) !! Path_of (lit "public/images")
  = (∅ : Disk) !! Path_of (lit "public/images").
Proof.
  apply (@only_the_cache_changes ascii_only).
  intros [_ (rest & E)]. discriminate E.
Defined.

Lemma other_records_untouched_witness :
  let W := example_world true demo_pipeline true in
  let args := example_args 0 in
  let p := {| get_pl_name := None; get_name := Some (lit "Kepler-10b") |} in
  let k := joinpath (joinpath WORKING (lit "badname")) (frame_file 0) in
  let st := {| fs := stale_disk; trace := [] |} in
  fs (state_of (@process_planet ascii_only W args demo_pipeline cpu
                  (Path_of (outdir args)) WORKING p st)) !! k
  = stale_disk !! k.
Proof.
  intros W args p k st.
  apply (@other_records_untouched ascii_only W args demo_pipeline cpu
           (Path_of (outdir args)) p
           {| get_pl_name := None; get_name := Some (lit "??bad/name") |} st k).
  - vm_compute. discriminate.
  - vm_compute. discriminate.
  - vm_compute. discriminate.
  - vm_compute. reflexivity.
Defined.

Lemma make_frames_keeps_other_files_witness :
  let d := joinpath WORKING (lit "Kepler-10b") in
  let k := joinpath d (frame_file 7) in
  let st := {| fs := stale_disk; trace := [] |} in
  fs (state_of (make_frames_for_prompt demo_pipeline (lit "P") d 2 64 64 cpu
                  None st)) !! k
  = stale_disk !! k.
Proof.
  intros d k st.
  apply (make_frames_keeps_other_files demo_pipeline (lit "P") d 2 64 64 cpu None st k).
  - vm_compute. reflexivity.
  - intros i Hi E. apply frame_path_inj in E; [|lia..].
    subst i. vm_compute in Hi. destruct Hi as [_ Hi]. discriminate Hi.
Defined.

Lemma partial_frames_remain_witness :
  let d := joinpath WORKING (lit "Kepler-10b") in
  let r := make_frames_for_prompt one_shot_pipeline (lit "P") d 3 64 64 cpu
             None fresh in
  exists evs,
    trace (state_of r) = [] ++ evs
    /\ length (saved evs) = 1%nat
    /\ forall q, List.In q (saved evs) ->
         exists img, fs (state_of r) !! q = Some (File img).
Proof.
  intros d r.
  assert (is_okb r = false) as Hno by (vm_compute; reflexivity).
  assert (length (saved (trace (state_of r))) = 1%nat) as Hlen
    by (vm_compute; reflexivity).
  subst r.
  destruct (make_frames_for_prompt one_shot_pipeline (lit "P") d 3 64 64 cpu
              None fresh) as [x st' | e st'] eqn:E; [discriminate Hno|].
  destruct (partial_frames_remain _ _ _ _ _ _ _ _ _ _ _ E) as (evs & Et & _ & Hs).
  exists evs. simpl in *. split; [exact Et|]. split; [|exact Hs].
  now rewrite Et in Hlen.
Defined.

Lemma planet_name_fallback_witness :
  Some (@planet_name empty_pl_name) = Some (lit "Kepler-10b")
  /\ @planet_name question_marks <> [].
Proof.
  split.
  - apply (proj1 (proj2 (proj2 (@planet_name_fallback ascii_only empty_pl_name))));
      reflexivity.
  - apply (proj1 (@planet_name_fallback ascii_only question_marks)).
Defined.

Lemma safe_name_unchanged_iff_witness :
  @safe_name ascii_only (lit "Kepler-10b") = lit "Kepler-10b".
Proof.
  apply (proj2 (@safe_name_unchanged_iff ascii_only (lit "Kepler-10b"))).
  split; [|reflexivity].
  apply List.Forall_forall. intros c Hc. simpl in Hc.
  repeat (destruct Hc as [<- | Hc];
          [first [left; reflexivity | right; left; reflexivity]|]).
  destruct Hc.
Defined.

Lemma empty_name_aborts_witness :
  let W := example_world true demo_pipeline true in
  let args := example_args 0 in
  let st := {| fs := one_record_disk; trace := [] |} in
  @frames_dir_of ascii_only question_marks = WORKING
  /\ @process_planet ascii_only W args demo_pipeline cpu (Path_of (outdir args))
       WORKING question_marks st = Raise OSError st
  /\ for_each [question_marks; kepler]
       (@process_planet ascii_only W args demo_pipeline cpu (Path_of (outdir args))
          WORKING) st = Raise OSError st.
Proof.
  intros W args st.
  apply (@empty_name_aborts ascii_only W args demo_pipeline cpu
           (Path_of (outdir args)) question_marks [kepler] st).
  - apply tidy_insert_dir; [apply tidy_singleton | reflexivity].
  - reflexivity.
  - exists (joinpath WORKING (lit "Kepler-10b")). split; [reflexivity|].
    exists Dir. apply lookup_insert_eq.
Defined.

Lemma success_assembles_video_witness :
  let W := example_world true demo_pipeline true in
  let args := example_args 0 in
  let st := {| fs := {[ WORKING := Dir ]}; trace := [] |} in
  exists st',
    @process_planet ascii_only W args demo_pipeline cpu (Path_of (outdir args))
      WORKING kepler st = Ok tt st'
    /\ List.map path_name (saved (trace st'))
       = [lit "frame_0000.png"; lit "frame_0001.png"].
Proof.
  intros W args st.
  set (d := joinpath WORKING (@safe_name ascii_only (planet_name kepler))).
  assert (is_okb (reset_frames_dir d st) = true) as Hreset
    by (vm_compute; reflexivity).
  destruct (reset_frames_dir d st) as [[] st0 | e0 st0] eqn:Ereset;
    [|discriminate Hreset].
  assert (is_okb (make_frames_for_prompt demo_pipeline
                    (planet_prompt (planet_name kepler)) d (frames args)
                    (width args) (height args) cpu None
                    {| fs := fs (state_of (reset_frames_dir d st));
                       trace := trace (state_of (reset_frames_dir d st))
                                ++ [EvPrint (MsgGenerating (planet_name kepler) d)] |})
          = true) as Hgen by (vm_compute; reflexivity).
  rewrite Ereset in Hgen. simpl in Hgen.
  destruct (make_frames_for_prompt _ _ _ _ _ _ _ _ _) as [d' st1 | e st1] eqn:Egen;
    [|discriminate Hgen].
  destruct (@success_assembles_video ascii_only W args demo_pipeline cpu
              (Path_of (outdir args)) WORKING kepler st st0 st1 d' Ereset Egen)
    as (Hbody & evs & Et & Hs & _); [reflexivity|].
  eexists. split; [exact Hbody|]. simpl.
  rewrite saved_app, Et, saved_app. simpl. rewrite Hs. reflexivity.
Defined.

Lemma run_keeps_cache_tidy_witness :
  let after := fs (state_of (@main ascii_only
                  (example_world true flaky_pipeline false) (example_args 0) ∅)) in
  after = ∅ \/ tidy after.
Proof.
  apply (@run_keeps_cache_tidy ascii_only).
  - now left.
  - intros planets [= <-]. repeat constructor; vm_compute; discriminate.
Defined.
